(** * cfgmenu: typed configuration items and the key-driven menu over them

    A shallow embedding of [config.h] (namespace [cfg]) and [menu.h]
    (namespace [ui]), together with the parts of the standard library they
    call: [std::from_chars], [std::format("{}", v)], [std::variant] access
    and [std::vector] with its iterators. *)

From Stdlib Require Import ZArith Ascii String Bool Lia.
From Stdlib Require PrimFloat SpecFloat FloatOps Uint63.
From stdpp Require Import base option list gmap.

Local Open Scope Z_scope.

(** ** types.h: the fixed width integral types *)

Module type.

Definition uint8_max : Z := 255.
Definition int_min : Z := - 2 ^ 31.
Definition int_max : Z := 2 ^ 31 - 1.

Definition is_uint8 (n : Z) : Prop := 0 <= n <= uint8_max.
Definition is_int (n : Z) : Prop := int_min <= n <= int_max.

Definition fits_int (n : Z) : bool := (int_min <=? n) && (n <=? int_max).

(** [static_cast] of a non-negative integer to the unsigned and to the signed
    type of the given width: the value congruent modulo 2^bits that the type
    can hold. *)
Definition cast_unsigned (bits : Z) (n : Z) : Z := n mod 2 ^ bits.

Definition cast_signed (bits : Z) (n : Z) : Z :=
  (n + 2 ^ (bits - 1)) mod 2 ^ bits - 2 ^ (bits - 1).

(** The literal operators: [operator"" _i8] to [operator"" _u64], each the
    [static_cast] of its [unsigned long long] argument. *)
Definition lit_i8 : Z -> Z := cast_signed 8.
Definition lit_u8 : Z -> Z := cast_unsigned 8.
Definition lit_i16 : Z -> Z := cast_signed 16.
Definition lit_u16 : Z -> Z := cast_unsigned 16.
Definition lit_i32 : Z -> Z := cast_signed 32.
Definition lit_u32 : Z -> Z := cast_unsigned 32.
Definition lit_i64 : Z -> Z := cast_signed 64.
Definition lit_u64 : Z -> Z := cast_unsigned 64.

(** The fixed width integral types as conversion targets; [uint8] is [u8]
    and [int] is [i32]. *)
Inductive integer_type := i8 | u8 | i16 | u16 | i32 | u32 | i64 | u64.

Definition bits (t : integer_type) : Z :=
  match t with
  | i8 | u8 => 8
  | i16 | u16 => 16
  | i32 | u32 => 32
  | i64 | u64 => 64
  end.

Definition signed (t : integer_type) : bool :=
  match t with
  | i8 | i16 | i32 | i64 => true
  | u8 | u16 | u32 | u64 => false
  end.

Definition min (t : integer_type) : Z :=
  if signed t then - 2 ^ (bits t - 1) else 0.

Definition max (t : integer_type) : Z :=
  if signed t then 2 ^ (bits t - 1) - 1 else 2 ^ bits t - 1.

Definition holds (t : integer_type) (z : Z) : bool :=
  (min t <=? z) && (z <=? max t).

(** [static_cast<T>(n)] on an integer value. *)
Definition cast (t : integer_type) (n : Z) : Z :=
  if signed t then cast_signed (bits t) n else cast_unsigned (bits t) n.

End type.

(** ** traits.h: [tt::is_distinct] *)

Module tt.

Section is_distinct.
Context {type_name : Type} `{EqDecision type_name}.

(** [is_distinct<T, Ts...>]. The specialisation for two types is the
    negation of [is_same]. The primary template is the conjunction of the
    negated [is_same<T, Ts>]..., then [is_distinct<Ts...>]; the conjunction
    stops at its first false operand. With a single type the primary
    template names [is_distinct<>], which is no instantiation: [None]. *)
Fixpoint is_distinct (T : type_name) (Ts : list type_name) : option bool :=
  match Ts with
  | [] => None
  | T2 :: Ts' =>
      match Ts' with
      | [] => Some (negb (bool_decide (T = T2)))
      | _ :: _ =>
          if forallb (fun U => negb (bool_decide (T = U))) Ts
          then is_distinct T2 Ts'
          else Some false
      end
  end.

End is_distinct.

End tt.

(** ** <charconv>: [std::from_chars] for the integer types *)

Module charconv.

Inductive errc := errc_none | invalid_argument | result_out_of_range.

(** [ptr] is kept as the number of characters consumed from [first]. *)
Record from_chars_result := { ptr : nat; ec : errc }.

Definition is_digit (c : ascii) : bool :=
  (48 <=? nat_of_ascii c)%nat && (nat_of_ascii c <=? 57)%nat.

Definition digit_value (c : ascii) : Z := Z.of_nat (nat_of_ascii c) - 48.

(** The digit loop: consume decimal digits, most significant first. Returns
    the accumulated magnitude and the number of digits consumed. *)
Fixpoint read_digits (s : string) (acc : Z) (n : nat) : Z * nat :=
  match s with
  | String c s' =>
      if is_digit c then read_digits s' (acc * 10 + digit_value c) (S n)
      else (acc, n)
  | EmptyString => (acc, n)
  end.

(** The minus sign is recognised only when the value type is signed; a plus
    sign and leading white space never are. *)
Definition split_sign (signed : bool) (s : string) : bool * string :=
  match s with
  | String "-" s' => if signed then (true, s') else (false, s)
  | _ => (false, s)
  end.

(** [std::from_chars(first, last, value)] in base 10 for an integer type with
    range [lo..hi]. [value] is the in-out parameter: it is written only when
    the pattern matched and the parsed number is representable. *)
Definition from_chars (signed : bool) (lo hi : Z) (s : string) (value : Z)
  : from_chars_result * Z :=
  let '(neg, body) := split_sign signed s in
  let '(mag, n) := read_digits body 0 0 in
  match n with
  | O => ({| ptr := 0; ec := invalid_argument |}, value)
  | S _ =>
      let consumed := ((if neg then 1 else 0) + n)%nat in
      let v := if neg then - mag else mag in
      if (lo <=? v) && (v <=? hi)
      then ({| ptr := consumed; ec := errc_none |}, v)
      else ({| ptr := consumed; ec := result_out_of_range |}, value)
  end.

Definition from_chars_uint8 : string -> Z -> from_chars_result * Z :=
  from_chars false 0 type.uint8_max.

Definition from_chars_int : string -> Z -> from_chars_result * Z :=
  from_chars true type.int_min type.int_max.

(** *** The patterns, on whole strings

    For integers: an optional minus sign (signed types only) followed by one
    or more digits. *)
Fixpoint all_digits (s : string) : bool :=
  match s with
  | EmptyString => true
  | String c s' => is_digit c && all_digits s'
  end.

Definition nonempty (s : string) : bool :=
  match s with EmptyString => false | String _ _ => true end.

Definition digit_sequence (s : string) : bool := nonempty s && all_digits s.

Definition integer_literal (signed : bool) (s : string) : bool :=
  let '(_, body) := split_sign signed s in digit_sequence body.

(** A text has a valid prefix when some initial part of it is a literal. *)
Definition has_integer_prefix (signed : bool) (s : string) : Prop :=
  exists p r, s = (p ++ r)%string /\ integer_literal signed p = true.

Definition lower (c : ascii) : ascii :=
  let n := nat_of_ascii c in
  if (65 <=? n)%nat && (n <=? 90)%nat then ascii_of_nat (n + 32) else c.

Fixpoint lower_string (s : string) : string :=
  match s with
  | EmptyString => EmptyString
  | String c s' => String (lower c) (lower_string s')
  end.

(** For floating point in [chars_format::general]: an optional minus sign,
    then either digits with at most one decimal point and at least one
    digit, optionally followed by an exponent, or one of the words for
    infinity and not-a-number, in any letter case. *)
Inductive significand : string -> Prop :=
| significand_integer i :
    digit_sequence i = true -> significand i
| significand_fraction i f :
    all_digits i = true -> all_digits f = true ->
    nonempty i || nonempty f = true ->
    significand (i ++ String "." f).

Inductive exponent : string -> Prop :=
| exponent_absent : exponent EmptyString
| exponent_present e sign d :
    lower e = "e"%char ->
    sign = EmptyString \/ sign = "+"%string \/ sign = "-"%string ->
    digit_sequence d = true ->
    exponent (String e (sign ++ d)).

Definition is_n_char (c : ascii) : bool :=
  let n := nat_of_ascii (lower c) in
  is_digit c || Ascii.eqb c "_" || ((97 <=? n)%nat && (n <=? 122)%nat).

Fixpoint n_char_sequence (s : string) : bool :=
  match s with
  | EmptyString => true
  | String c s' => is_n_char c && n_char_sequence s'
  end.

Inductive special : string -> Prop :=
| special_inf w : lower_string w = "inf"%string -> special w
| special_infinity w : lower_string w = "infinity"%string -> special w
| special_nan w : lower_string w = "nan"%string -> special w
| special_nan_sequence w seq :
    lower_string w = "nan"%string -> n_char_sequence seq = true ->
    special (w ++ String "(" (seq ++ ")")).

Definition sign_text (neg : bool) : string :=
  if neg then "-"%string else EmptyString.

Inductive floating_literal : string -> Prop :=
| floating_number neg m e :
    significand m -> exponent e ->
    floating_literal (sign_text neg ++ m ++ e)
| floating_special neg w :
    special w -> floating_literal (sign_text neg ++ w).

Definition has_floating_prefix (s : string) : Prop :=
  exists p r, s = (p ++ r)%string /\ floating_literal p.

(** *** Where a match starts

    Whether [from_chars] finds its pattern at the start of the text. For
    floating point: after an optional minus sign, a digit, a decimal point
    followed by a digit, or the word [inf] or [nan] in any letter case. *)
Definition starts_integer (signed : bool) (s : string) : bool :=
  match snd (split_sign signed s) with
  | String c _ => is_digit c
  | EmptyString => false
  end.

Definition starts_with_word (w1 w2 w3 : ascii) (s : string) : bool :=
  match s with
  | String c1 (String c2 (String c3 _)) =>
      Ascii.eqb (lower c1) w1 && Ascii.eqb (lower c2) w2
      && Ascii.eqb (lower c3) w3
  | _ => false
  end.

Definition starts_floating (s : string) : bool :=
  let '(_, body) := split_sign true s in
  match body with
  | String c rest =>
      is_digit c
      || (Ascii.eqb c "." &&
          match rest with String d _ => is_digit d | EmptyString => false end)
      || starts_with_word "i" "n" "f" body
      || starts_with_word "n" "a" "n" body
  | EmptyString => false
  end.

(** *** Floating point

    What the standard library provides for [double] as text. The numeric
    conversions are taken as given; the text patterns are not. *)
Class floating_point (double : Type) := {
  (** [std::format("{}", d)]: the shortest text that reads back as [d]. *)
  format_double : double -> string;
  (** The value of the longest prefix of the text that matches the pattern,
      [None] when that number is outside the range of [double]. Only
      consulted on texts where a match starts. *)
  strtod : string -> option double;
}.

(** [std::from_chars(first, last, value)] for [double]; only the error code
    is kept of the result. *)
Definition from_chars_double `{floating_point double}
    (s : string) (value : double) : errc * double :=
  if starts_floating s then
    match strtod s with
    | Some d => (errc_none, d)
    | None => (result_out_of_range, value)
    end
  else (invalid_argument, value).

End charconv.

(** ** <format>: [std::format("{}", v)] for [bool] and the integer types *)

Module fmt.

Definition digit_char (d : Z) : ascii := ascii_of_nat (48 + Z.to_nat d).

(** Digits are produced least significant first and pushed in front of
    [tail]; [fuel] bounds the number of digits. *)
Fixpoint to_chars_fuel (fuel : nat) (n : Z) (tail : string) : string :=
  match fuel with
  | O => tail
  | S fuel' =>
      let tail' := String (digit_char (n mod 10)) tail in
      if n <? 10 then tail' else to_chars_fuel fuel' (n / 10) tail'
  end.

(** The binary length of [n] bounds its decimal length. *)
Definition format_unsigned (n : Z) : string :=
  to_chars_fuel (S (Z.to_nat (Z.log2 n))) n EmptyString.

Definition format_integer (n : Z) : string :=
  if n <? 0 then String "-" (format_unsigned (- n)) else format_unsigned n.

Definition format_bool (b : bool) : string :=
  if b then "true"%string else "false"%string.

(** *** Fields with a width, and [{:c}]

    The texts formatted here are ASCII, one column a character. *)
Fixpoint spaces (n : nat) : string :=
  match n with
  | O => EmptyString
  | S n' => String " " (spaces n')
  end.

(** [{:20}] on a string: at least [width] columns, the text first. *)
Definition align_left (width : nat) (s : string) : string :=
  (s ++ spaces (width - String.length s))%string.

(** [{:>16}] on a string: at least [width] columns, the text last. *)
Definition align_right (width : nat) (s : string) : string :=
  (spaces (width - String.length s) ++ s)%string.

(** [numeric_limits<char>::max()]: 127 where [char] is signed, 255 where it
    is not. *)
Class char_range := char_max : nat.

(** [{:c}] on an [int]: the character with that code; a code [char] cannot
    hold is a [format_error], [None] here. *)
Definition format_char `{char_range} (n : nat) : option ascii :=
  if (n <=? char_max)%nat then Some (ascii_of_nat n) else None.

End fmt.

(** ** <cctype>: [std::toupper] in the "C" locale *)

Module cctype.

Definition toupper (ch : nat) : nat :=
  if (97 <=? ch)%nat && (ch <=? 122)%nat then (ch - 32)%nat else ch.

End cctype.

(** ** config.h: [cfg::config_item<bool, uint8, int, double>] *)

Module cfg.

(** The declared value kinds of [cfgitem], in declaration order. *)
Inductive kind := Bool | Uint8 | Int | Double.

Inductive exception := bad_variant_access.

(** The outcome of a call that may throw. *)
Inductive expected (A : Type) :=
| returns (a : A)
| throws (e : exception).
Arguments returns {A} a.
Arguments throws {A} e.

(** What the language defines between [double] and the other arithmetic
    types. *)
Class floating_casts (double : Type) := {
  (** [d != 0], the conversion to [bool]. *)
  double_to_bool : double -> bool;
  (** The value with the fractional part discarded, [None] for a
      not-a-number and for the infinities. *)
  double_truncate : double -> option Z;
  (** The conversion from an integer type. *)
  integer_to_double : Z -> double;
}.

Section config_item.
Context {double : Type}.

(** [std::variant<bool, uint8, int, double>]: exactly one alternative is
    active. The integer alternatives carry their value as an integer of the
    range of their type. *)
Inductive variant :=
| of_bool (b : bool)
| of_uint8 (n : Z)
| of_int (n : Z)
| of_double (d : double).

Definition index (v : variant) : kind :=
  match v with
  | of_bool _ => Bool
  | of_uint8 _ => Uint8
  | of_int _ => Int
  | of_double _ => Double
  end.

Definition kind_type (k : kind) : Type :=
  match k with
  | Bool => bool
  | Uint8 => Z
  | Int => Z
  | Double => double
  end.

Definition make (k : kind) : kind_type k -> variant :=
  match k with
  | Bool => of_bool
  | Uint8 => of_uint8
  | Int => of_int
  | Double => of_double
  end.

(** [std::get<K>(v)]. *)
Definition get (k : kind) (v : variant) : expected (kind_type k) :=
  match k return expected (kind_type k) with
  | Bool => match v with of_bool b => returns b | _ => throws bad_variant_access end
  | Uint8 => match v with of_uint8 n => returns n | _ => throws bad_variant_access end
  | Int => match v with of_int n => returns n | _ => throws bad_variant_access end
  | Double => match v with of_double d => returns d | _ => throws bad_variant_access end
  end.

Definition in_range (v : variant) : Prop :=
  match v with
  | of_bool _ => True
  | of_uint8 n => type.is_uint8 n
  | of_int n => type.is_int n
  | of_double _ => True
  end.

Record config_item := { name_ : string; value_ : variant }.

Definition name (item : config_item) : string := name_ item.

(** [std::ranges::replace(tag, ' ', '-')] on a copy of the name. *)
Fixpoint replace (old new : ascii) (s : string) : string :=
  match s with
  | EmptyString => EmptyString
  | String c s' =>
      String (if Ascii.eqb c old then new else c) (replace old new s')
  end.

Definition tagname (item : config_item) : string :=
  replace " " "-" (name_ item).

(** [to<Value>()]: the checked accessor. *)
Definition to (k : kind) (item : config_item) : expected (kind_type k) :=
  get k (value_ item).

(** [set(value)] with a value of one of the declared kinds: [value_ = value]
    selects the alternative of the value's own type. *)
Definition set (value : variant) (item : config_item) : config_item :=
  {| name_ := name_ item; value_ := value |}.

Context `{!charconv.floating_point double}.

(** [to<std::string>()]: [std::format("{}", value)] on the active
    alternative. *)
Definition to_string (item : config_item) : string :=
  match value_ item with
  | of_bool b => fmt.format_bool b
  | of_uint8 n => fmt.format_integer n
  | of_int n => fmt.format_integer n
  | of_double d => charconv.format_double d
  end.

(** [set(std::string_view)]: the visitor's first arm takes the [bool]
    alternative, the generic arm every other one. The result of
    [from_chars] is discarded. *)
Definition set_text (text : string) (item : config_item) : config_item :=
  {| name_ := name_ item;
     value_ :=
       match value_ item with
       | of_bool _ =>
           of_bool (String.eqb text "1" || String.eqb text "true")
       | of_uint8 n => of_uint8 (snd (charconv.from_chars_uint8 text n))
       | of_int n => of_int (snd (charconv.from_chars_int text n))
       | of_double d => of_double (snd (charconv.from_chars_double text d))
       end |}.

(** The error code [from_chars] produced inside [set_text], [None] on the
    [bool] arm, which does not call it. *)
Definition set_text_ec (text : string) (item : config_item)
  : option charconv.errc :=
  match value_ item with
  | of_bool _ => None
  | of_uint8 n => Some (charconv.ec (fst (charconv.from_chars_uint8 text n)))
  | of_int n => Some (charconv.ec (fst (charconv.from_chars_int text n)))
  | of_double d => Some (fst (charconv.from_chars_double text d))
  end.

(** What a valid numeric prefix is for each numeric kind. *)
Definition has_numeric_prefix (k : kind) (text : string) : Prop :=
  match k with
  | Bool => False
  | Uint8 => charconv.has_integer_prefix false text
  | Int => charconv.has_integer_prefix true text
  | Double => charconv.has_floating_prefix text
  end.

(** *** The conversion operator

    The arithmetic types [operator Value()] is asked for. *)
Inductive target :=
| to_bool
| to_integral (t : type.integer_type)
| to_double.

Definition target_type (t : target) : Type :=
  match t with
  | to_bool => bool
  | to_integral _ => Z
  | to_double => double
  end.

Definition bool_to_integer (b : bool) : Z := if b then 1 else 0.
Definition integer_to_bool (n : Z) : bool := negb (n =? 0).

Context `{!floating_casts double}.

(** [static_cast<Value>(value)] on the alternative [value] may have. An
    integer goes to an integer type modulo 2^bits, anything goes to [bool]
    by comparison with zero, and a [double] goes to an integer type by
    truncation; where the integer type cannot hold the truncated value the
    behaviour is undefined, [None]. *)
Definition static_cast (t : target) (value : variant)
  : option (target_type t) :=
  match t return option (target_type t) with
  | to_bool =>
      Some match value with
           | of_bool b => b
           | of_uint8 n | of_int n => integer_to_bool n
           | of_double d => double_to_bool d
           end
  | to_integral i =>
      match value with
      | of_bool b => Some (type.cast i (bool_to_integer b))
      | of_uint8 n | of_int n => Some (type.cast i n)
      | of_double d =>
          match double_truncate d with
          | Some z => if type.holds i z then Some z else None
          | None => None
          end
      end
  | to_double =>
      Some match value with
           | of_bool b => integer_to_double (bool_to_integer b)
           | of_uint8 n | of_int n => integer_to_double n
           | of_double d => d
           end
  end.

(** [operator Value()]: visits the active alternative and casts it. The
    visit of a variant of arithmetic types throws nothing; [None] where the
    cast is undefined. *)
Definition operator_Value (t : target) (item : config_item)
  : option (expected (target_type t)) :=
  match static_cast t (value_ item) with
  | Some v => Some (returns v)
  | None => None
  end.

(** The number an alternative other than [double] stands for. *)
Definition integer_value (value : variant) : option Z :=
  match value with
  | of_bool b => Some (bool_to_integer b)
  | of_uint8 n | of_int n => Some n
  | of_double _ => None
  end.

(** [framecfg]: the frame of the camera. *)
Record framecfg := {
  width : config_item;
  height : config_item;
  rate : config_item;
}.

(** What a call of a [noexcept] function over [int]s comes to: a value, a
    call of [std::terminate] because an exception reached the function's
    boundary, or a signed overflow. *)
Inductive noexcept_int :=
| int_value (n : Z)
| terminates
| overflows.

(** [size(depth)] with an [int] depth:
    [depth * width.to<int>() * height.to<int>()]. *)
Definition size (depth : Z) (frame : framecfg) : noexcept_int :=
  match to Int (width frame), to Int (height frame) with
  | returns w, returns h =>
      if type.fits_int (depth * w) && type.fits_int (depth * w * h)
      then int_value (depth * w * h)
      else overflows
  | _, _ => terminates
  end.

End config_item.

Arguments variant : clear implicits.
Arguments config_item : clear implicits.
Arguments kind_type : clear implicits.

End cfg.

(** ** <vector>: [std::vector] with its iterators *)

Module vec.

Local Open Scope nat_scope.

(** An iterator is a position inside one allocation. Allocations are named
    by a number; [0] names the null buffer of a vector that owns no
    storage, and a value-initialised iterator is position [0] of it. *)
Record iterator := { it_buf : nat; it_pos : nat }.

Definition iterator_eqb (i j : iterator) : bool :=
  Nat.eqb (it_buf i) (it_buf j) && Nat.eqb (it_pos i) (it_pos j).

Definition singular : iterator := {| it_buf := 0; it_pos := 0 |}.

(** The capacity a full vector of the given capacity moves to; the factor
    is the implementation's choice. *)
Class growth_policy := grow : nat -> nat.

Section vector.
Context {T : Type}.

Record vector := { data : list T; capacity : nat; buffer : nat }.

Definition empty : vector := {| data := []; capacity := 0; buffer := 0 |}.

Definition size (v : vector) : nat := length (data v).

Definition begin (v : vector) : iterator :=
  {| it_buf := buffer v; it_pos := 0 |}.

Definition end_ (v : vector) : iterator :=
  {| it_buf := buffer v; it_pos := size v |}.

(** [emplace_back]: constructs in place while there is room; otherwise the
    elements move to a new, larger allocation and the old one is released,
    which invalidates every iterator into it. The new allocation gets the
    next number after the old one: numbers tell the allocations of one
    vector apart, not those of two vectors. *)
Definition emplace_back `{growth_policy} (x : T) (v : vector) : vector :=
  if size v <? capacity v
  then {| data := data v ++ [x]; capacity := capacity v; buffer := buffer v |}
  else {| data := data v ++ [x];
          capacity := grow (capacity v);
          buffer := S (buffer v) |}.

(** An iterator may be read through when it points into the current
    allocation, before the end. A position is all an iterator records: one
    taken at the end is not told apart from one taken, after an insertion
    in place, on the element then at that position. *)
Definition dereferenceable (v : vector) (it : iterator) : bool :=
  Nat.eqb (it_buf it) (buffer v) && (it_pos it <? size v).

(** [*it]; [None] where the behaviour is undefined. *)
Definition deref (v : vector) (it : iterator) : option T :=
  if Nat.eqb (it_buf it) (buffer v) then data v !! it_pos it else None.

(** [erase(position)]: removes the element at a dereferenceable [position];
    the storage stays where it is. [None] where the behaviour is
    undefined. *)
Definition erase (v : vector) (position : iterator) : option vector :=
  if dereferenceable v position
  then Some {| data := delete (it_pos position) (data v);
               capacity := capacity v;
               buffer := buffer v |}
  else None.

(** [std::ranges::find_if]: the first position whose element satisfies
    [pred], the end when there is none. *)
Fixpoint find_if_from (pred : T -> bool) (l : list T) (pos : nat) : nat :=
  match l with
  | [] => pos
  | x :: l' => if pred x then pos else find_if_from pred l' (S pos)
  end.

Definition find_if (pred : T -> bool) (v : vector) : iterator :=
  {| it_buf := buffer v; it_pos := find_if_from pred (data v) 0 |}.

(** [operator==] on vectors: equal sizes and pairwise equal elements under
    the element type's [operator==]. *)
Fixpoint equal (eq : T -> T -> bool) (l1 l2 : list T) : bool :=
  match l1, l2 with
  | [], [] => true
  | x :: l1', y :: l2' => eq x y && equal eq l1' l2'
  | _, _ => false
  end.

Definition vector_eqb (eq : T -> T -> bool) (v w : vector) : bool :=
  equal eq (data v) (data w).

(** Copy construction: the elements go to an allocation of their own, named
    [fresh]; an empty source needs none. *)
Definition copy (fresh : nat) (v : vector) : vector :=
  {| data := data v;
     capacity := size v;
     buffer := match data v with [] => 0 | _ :: _ => fresh end |}.

End vector.

Arguments vector : clear implicits.

End vec.

(** ** menu.h: [ui::menu_option] and [ui::menu] *)

Module ui.

Local Open Scope nat_scope.

Section menu.
Context {double : Type} `{!charconv.floating_point double}.

(** The configuration items live outside the menu, which refers to them by
    address. *)
Abbreviation store := (gmap nat (cfg.config_item double)).

(** [Action]: invocable without arguments and testable for emptiness, as
    [std::function<void()>] is. Invoking it may read and write the items. *)
Class invocable (Action : Type) := {
  has_target : Action -> bool;
  invoke : Action -> store -> store;
}.

Context {Action : Type} `{!invocable Action}.

Record menu_option := {
  action_ : Action;
  cfgitem_ : nat;
  key_ : ascii;
}.

(** The value handed to [apply] goes to the overload of [set] that takes
    it: the textual one or the one for the declared kinds. *)
Inductive argument :=
| text (s : string)
| arithmetic (v : cfg.variant double).

Definition cfgitem_set (value : argument) (item : cfg.config_item double)
  : cfg.config_item double :=
  match value with
  | text s => cfg.set_text s item
  | arithmetic v => cfg.set v item
  end.

(** The first statement of [apply]: [cfgitem_->set(value)]. [None] when
    [cfgitem_] points at no item. *)
Definition commit (value : argument) (o : menu_option) (s : store)
  : option store :=
  match s !! cfgitem_ o with
  | Some item => Some (<[cfgitem_ o := cfgitem_set value item]> s)
  | None => None
  end.

Definition apply (value : argument) (o : menu_option) (s : store)
  : option store :=
  match commit value o s with
  | Some s' =>
      if negb (has_target (action_ o)) then Some s'
      else Some (invoke (action_ o) s')
  | None => None
  end.

Definition key (o : menu_option) : ascii := key_ o.

Definition option_eqb (lhs rhs : menu_option) : bool :=
  Ascii.eqb (key lhs) (key rhs).

Record menu := {
  options_ : vec.vector menu_option;
  selection_ : vec.iterator;
}.

Definition new_menu : menu :=
  {| options_ := vec.empty; selection_ := vec.singular |}.

Definition add `{vec.growth_policy}
    (k : ascii) (cfgitem : nat) (action : Action) (m : menu) : menu :=
  {| options_ :=
       vec.emplace_back
         {| action_ := action; cfgitem_ := cfgitem; key_ := k |} (options_ m);
     selection_ := selection_ m |}.

Definition select (k : ascii) (m : menu) : menu * bool :=
  let found := vec.find_if (fun o => Ascii.eqb (key o) k) (options_ m) in
  ({| options_ := options_ m; selection_ := found |},
   negb (vec.iterator_eqb found (vec.end_ (options_ m)))).

(** [selection()]: [*selection_]. *)
Definition selection (m : menu) : option menu_option :=
  vec.deref (options_ m) (selection_ m).

(** [remove()] reads [options_.erase(selection)]: its operand names the
    accessor [selection], a member function, where [erase] takes an
    iterator; the cursor is the data member [selection_]. As written the
    call has no instantiation, so [remove] has no definition here.
    [erase_at_cursor] is the call with the cursor as its operand. *)
Definition erase_at_cursor (m : menu) : option menu :=
  match vec.erase (options_ m) (selection_ m) with
  | Some v => Some {| options_ := v; selection_ := selection_ m |}
  | None => None
  end.

(** The defaulted [operator==]: member by member, [options_] then
    [selection_]. *)
Definition menu_eqb (lhs rhs : menu) : bool :=
  vec.vector_eqb option_eqb (options_ lhs) (options_ rhs)
  && vec.iterator_eqb (selection_ lhs) (selection_ rhs).

(** The implicit copy constructor: member by member. The copied cursor
    still points into the source's storage. *)
Definition copy (fresh : nat) (m : menu) : menu :=
  {| options_ := vec.copy fresh (options_ m); selection_ := selection_ m |}.

(** The states of the cursor. *)
Definition unselected (m : menu) : bool :=
  vec.iterator_eqb (selection_ m) (vec.end_ (options_ m)).

Definition valid_for_reads (m : menu) : bool :=
  vec.dereferenceable (options_ m) (selection_ m).

Definition keys (m : menu) : list ascii := key <$> vec.data (options_ m).

Definition count (m : menu) : nat := vec.size (options_ m).

Context `{!fmt.char_range}.

(** [menu_option::to<std::string>()]:
    [std::format("{:20} {:>16}\n", name, value)]. [None] when [cfgitem_]
    points at no item. *)
Definition option_to_string (o : menu_option) (s : store) : option string :=
  match s !! cfgitem_ o with
  | Some item =>
      Some (fmt.align_left 20 (cfg.name item)
            ++ String " " (fmt.align_right 16 (cfg.to_string item)
                           ++ String "010" EmptyString))%string
  | None => None
  end.

(** What rendering a menu comes to. *)
Inductive rendering :=
| rendered (result : string)
| format_error
| undefined.

(** The loop of [menu::to<std::string>()]: for every option in order,
    [result += std::format("{:c} | {}", std::toupper(option.key()),
    option.to<String>())]. *)
Fixpoint to_string_loop (os : list menu_option) (s : store) (result : string)
  : rendering :=
  match os with
  | [] => rendered result
  | o :: os' =>
      match option_to_string o s with
      | None => undefined
      | Some line =>
          match fmt.format_char (cctype.toupper (nat_of_ascii (key o))) with
          | None => format_error
          | Some c =>
              to_string_loop os' s
                (result ++ String c (String " " (String "|" (String " " line))))
          end
      end
  end.

Definition menu_to_string (m : menu) (s : store) : rendering :=
  to_string_loop (vec.data (options_ m)) s EmptyString.

End menu.

Arguments menu_option : clear implicits.
Arguments menu : clear implicits.

(** [std::function<void()>]: empty, or holding a target. *)
#[global] Instance function_invocable {double : Type}
  : invocable (double := double)
      (option (gmap nat (cfg.config_item double)
               -> gmap nat (cfg.config_item double))) :=
  {| has_target := fun a => match a with Some _ => true | None => false end;
     invoke := fun a s => match a with Some f => f s | None => s end |}.

End ui.

(** ** Sample values *)

Module sample.

(** An implementation of the floating-point interface whose only doubles
    are the integers; it serves to run the definitions on concrete items of
    the other kinds. *)
#[global] Instance integral : charconv.floating_point Z := {|
  charconv.format_double := fmt.format_integer;
  charconv.strtod := fun s =>
    let '(neg, body) := charconv.split_sign true s in
    match charconv.read_digits body 0 0 with
    | (_, O) => None
    | (mag, S _) => Some (if neg then - mag else mag)
    end;
|}.

(** The casts of IEEE 754 binary64, on the primitive floats. *)
#[global] Instance binary64 : cfg.floating_casts PrimFloat.float := {|
  cfg.double_to_bool := fun d => negb (PrimFloat.eqb d PrimFloat.zero);
  cfg.double_truncate := fun d =>
    match FloatOps.Prim2SF d with
    | SpecFloat.S754_zero _ => Some 0
    | SpecFloat.S754_finite s m e =>
        let magnitude :=
          if 0 <=? e then Z.pos m * 2 ^ e else Z.pos m / 2 ^ (- e) in
        Some (if s then - magnitude else magnitude)
    | SpecFloat.S754_infinity _ | SpecFloat.S754_nan => None
    end;
  cfg.integer_to_double := fun n =>
    if n <? 0
    then PrimFloat.opp (PrimFloat.of_uint63 (Uint63.of_Z (- n)))
    else PrimFloat.of_uint63 (Uint63.of_Z n);
|}.

(** The proportional gain after a textual set of ["1e10"], and the frame
    width, over binary64. *)
Definition gain : cfg.config_item PrimFloat.float :=
  {| cfg.name_ := "proportional"; cfg.value_ :=
       cfg.of_double (PrimFloat.of_uint63 (Uint63.of_Z 10000000000)) |}.

Definition frame_width : cfg.config_item PrimFloat.float :=
  {| cfg.name_ := "frame width"; cfg.value_ := cfg.of_int 640 |}.


(** libstdc++ doubles the capacity of a full vector. *)
#[global] Instance doubling : vec.growth_policy := fun c => Nat.max 1 (2 * c).

Definition width : cfg.config_item Z :=
  {| cfg.name_ := "screen width"; cfg.value_ := cfg.of_int 800 |}.

Definition height : cfg.config_item Z :=
  {| cfg.name_ := "screen height"; cfg.value_ := cfg.of_int 600 |}.

Definition enabled : cfg.config_item Z :=
  {| cfg.name_ := "serial enabled"; cfg.value_ := cfg.of_bool true |}.

Definition red : cfg.config_item Z :=
  {| cfg.name_ := "red balance"; cfg.value_ := cfg.of_uint8 128 |}.

(** The items at addresses 1 and 2. *)
Definition items : gmap nat (cfg.config_item Z) :=
  <[1%nat := width]> (<[2%nat := height]> ∅).

Abbreviation action := (option (gmap nat (cfg.config_item Z)
                                -> gmap nat (cfg.config_item Z))).

(** An action that copies the width into the height. *)
Definition mirror : action :=
  Some (fun s =>
          match s !! 1%nat with
          | Some w => <[2%nat := cfg.set (cfg.value_ w) height]> s
          | None => s
          end).

(** A menu with the keys [w] and [h], grown one option at a time. *)
Definition one_key : ui.menu action :=
  ui.add "w" 1 None ui.new_menu.

Definition two_keys : ui.menu action :=
  ui.add "h" 2 None one_key.

(** The option on the key [w]: it sets the width and then mirrors it. *)
Definition width_option : ui.menu_option action :=
  {| ui.action_ := mirror; ui.cfgitem_ := 1; ui.key_ := "w" |}.

(** [two_keys] with [h] selected, a copy of it made then, and the original
    with [w] selected afterwards. *)
Definition h_selected : ui.menu action := (ui.select "h" two_keys).1.

Definition h_selected_copy : ui.menu action := ui.copy 9 h_selected.

Definition w_selected : ui.menu action := (ui.select "w" h_selected).1.

(** The declared kinds as a list of types, for [tt::is_distinct]. *)
#[global] Instance kind_eq_dec : EqDecision cfg.kind.
Proof. solve_decision. Defined.

(** What [one_key] renders to over [items]. *)
Definition one_key_text : string :=
  ("W | screen width" ++ fmt.spaces 22 ++ "800" ++ String "010" EmptyString)%string.

(** [char] is signed on the x86 targets. *)
#[global] Instance signed_char : fmt.char_range := 127%nat.

(** The frame of the defaults. *)
Definition frame : cfg.framecfg (double := Z) :=
  {| cfg.width := {| cfg.name_ := "frame width"; cfg.value_ := cfg.of_int 640 |};
     cfg.height := {| cfg.name_ := "frame height"; cfg.value_ := cfg.of_int 480 |};
     cfg.rate := {| cfg.name_ := "frame rate"; cfg.value_ := cfg.of_int 60 |} |}.

(** [two_keys] and a third option, which leaves room for a fourth. *)
Definition three_keys : ui.menu action := ui.add "r" 2 None two_keys.

End sample.

(** * Properties *)

(** ** Reading and writing decimal integers *)

Section charconv_facts.
Import charconv.

Lemma append_cons c (s r : string) :
  (String c s ++ r = String c (s ++ r))%string.
Proof. reflexivity. Qed.

Lemma append_nil (r : string) : (EmptyString ++ r = r)%string.
Proof. reflexivity. Qed.

Lemma is_digit_not_minus c : is_digit c = true -> c <> "-"%char.
Proof. intros Hd ->. discriminate Hd. Qed.

Lemma split_sign_digit signed c s :
  is_digit c = true -> split_sign signed (String c s) = (false, String c s).
Proof.
  intros Hd. unfold split_sign.
  destruct c as [[] [] [] [] [] [] [] []]; try reflexivity.
  discriminate Hd.
Qed.

Lemma split_sign_unsigned s : split_sign false s = (false, s).
Proof.
  destruct s as [|c s]; [reflexivity|].
  unfold split_sign.
  destruct c as [[] [] [] [] [] [] [] []]; reflexivity.
Qed.

Lemma split_sign_minus s : split_sign true (String "-" s) = (true, s).
Proof. reflexivity. Qed.

(** The body after the sign is the text itself or the text after a minus
    sign. *)
Lemma split_sign_cases signed s :
  split_sign signed s = (false, s)
  \/ (signed = true /\ exists s', s = String "-" s' /\ split_sign signed s = (true, s')).
Proof.
  destruct s as [|c s]; [left; reflexivity|].
  destruct (Ascii.eqb_spec c "-") as [->|Hne].
  - destruct signed; [right|left; reflexivity]. eauto.
  - left. unfold split_sign.
    destruct c as [[] [] [] [] [] [] [] []]; try reflexivity.
    contradiction Hne; reflexivity.
Qed.

Lemma read_digits_count s acc n : (n <= snd (read_digits s acc n))%nat.
Proof.
  revert acc n. induction s as [|c s IH]; intros acc n; simpl; [lia|].
  destruct (is_digit c); simpl; [|lia].
  specialize (IH (acc * 10 + digit_value c) (S n)). lia.
Qed.

Lemma read_digits_zero s :
  snd (read_digits s 0 0) = O <->
  match s with String c _ => is_digit c = false | EmptyString => True end.
Proof.
  destruct s as [|c s]; simpl; [tauto|].
  destruct (is_digit c); simpl; [|tauto].
  pose proof (read_digits_count s (0 * 10 + digit_value c) 1).
  split; [lia|discriminate].
Qed.

(** [from_chars] fails with [invalid_argument] exactly where no match
    starts, and then leaves the value alone. *)
Lemma from_chars_no_match signed lo hi s value :
  starts_integer signed s = false ->
  from_chars signed lo hi s value
  = ({| ptr := 0; ec := invalid_argument |}, value).
Proof.
  unfold starts_integer, from_chars. intros Hs.
  destruct (split_sign signed s) as [neg body]. simpl in Hs.
  destruct (read_digits body 0 0) as [mag n] eqn:Hr.
  assert (Hn : snd (read_digits body 0 0) = O).
  { apply read_digits_zero. destruct body; [exact I|exact Hs]. }
  rewrite Hr in Hn. simpl in Hn. subst n. reflexivity.
Qed.

Lemma digit_sequence_head s :
  digit_sequence s = true -> exists c s', s = String c s' /\ is_digit c = true.
Proof.
  destruct s as [|c s]; [discriminate|].
  unfold digit_sequence. simpl. intros H.
  apply andb_true_iff in H as [H _]. eauto.
Qed.

(** A match starts exactly where some initial part of the text is an
    integer literal. *)
Lemma starts_integer_prefix signed s :
  starts_integer signed s = true <-> has_integer_prefix signed s.
Proof.
  unfold starts_integer, has_integer_prefix, integer_literal. split.
  - intros Hs.
    destruct (split_sign_cases signed s) as [E|(-> & s' & -> & E)];
      rewrite E in Hs; simpl in Hs.
    + destruct s as [|c s]; [discriminate|].
      exists (String c EmptyString), s. split; [reflexivity|].
      rewrite (split_sign_digit _ _ _ Hs).
      unfold digit_sequence. simpl. rewrite Hs. reflexivity.
    + destruct s' as [|c s]; [discriminate|].
      exists (String "-" (String c EmptyString)), s. split; [reflexivity|].
      rewrite split_sign_minus. unfold digit_sequence. simpl.
      rewrite Hs. reflexivity.
  - intros (p & r & -> & Hp).
    destruct (split_sign_cases signed p) as [E|(-> & p' & -> & E)];
      rewrite E in Hp.
    + apply digit_sequence_head in Hp as (c & p' & -> & Hc).
      rewrite append_cons, (split_sign_digit _ _ _ Hc). exact Hc.
    + apply digit_sequence_head in Hp as (c & p'' & -> & Hc).
      rewrite !append_cons, split_sign_minus. exact Hc.
Qed.

Lemma lower_string_cons3 w c1 c2 c3 rest :
  lower_string w = String c1 (String c2 (String c3 rest)) ->
  exists d1 d2 d3 w',
    w = String d1 (String d2 (String d3 w'))
    /\ lower d1 = c1 /\ lower d2 = c2 /\ lower d3 = c3.
Proof.
  destruct w as [|d1 [|d2 [|d3 w']]]; simpl; try discriminate.
  intros [= <- <- <- _]. eauto 10.
Qed.

Lemma split_sign_other signed c s :
  c <> "-"%char -> split_sign signed (String c s) = (false, String c s).
Proof.
  intros Hne.
  destruct (split_sign_cases signed (String c s))
    as [E|(_ & s' & [= ? _] & _)]; [exact E|contradiction].
Qed.

(** The sign test leaves the text after an optional minus sign. *)
Lemma split_sign_text neg c s :
  c <> "-"%char ->
  split_sign true (sign_text neg ++ String c s) = (neg, String c s).
Proof.
  intros Hne. destruct neg; unfold sign_text.
  - rewrite append_cons, append_nil. apply split_sign_minus.
  - rewrite append_nil. now apply split_sign_other.
Qed.

Lemma starts_floating_digit neg c rest :
  is_digit c = true ->
  starts_floating (sign_text neg ++ String c rest) = true.
Proof.
  intros Hc. unfold starts_floating.
  rewrite split_sign_text by now apply is_digit_not_minus.
  rewrite Hc. reflexivity.
Qed.

Lemma starts_floating_point neg d rest :
  is_digit d = true ->
  starts_floating (sign_text neg ++ String "." (String d rest)) = true.
Proof.
  intros Hd. unfold starts_floating.
  rewrite split_sign_text by discriminate.
  rewrite Hd. reflexivity.
Qed.

Lemma starts_floating_word neg w r t :
  lower_string w = String "i" (String "n" (String "f" t))
  \/ lower_string w = String "n" (String "a" (String "n" t)) ->
  starts_floating (sign_text neg ++ w ++ r) = true.
Proof.
  intros Hw.
  assert (exists d1 d2 d3 w',
             w = String d1 (String d2 (String d3 w'))
             /\ (starts_with_word "i" "n" "f" w = true
                 \/ starts_with_word "n" "a" "n" w = true)
             /\ d1 <> "-"%char) as (d1 & d2 & d3 & w' & -> & Hs & Hne).
  { destruct Hw as [Hw|Hw];
      destruct (lower_string_cons3 _ _ _ _ _ Hw)
        as (d1 & d2 & d3 & w' & -> & H1 & H2 & H3);
      exists d1, d2, d3, w'; (split; [reflexivity|]); split.
    - left. simpl. rewrite H1, H2, H3. reflexivity.
    - intros ->. discriminate H1.
    - right. simpl. rewrite H1, H2, H3. reflexivity.
    - intros ->. discriminate H1. }
  unfold starts_floating. rewrite !append_cons.
  rewrite split_sign_text by exact Hne.
  simpl in Hs |- *. rewrite <- orb_assoc.
  destruct Hs as [-> | ->]; rewrite ?orb_true_r; reflexivity.
Qed.

Lemma append_assoc (a b c : string) :
  ((a ++ b) ++ c = a ++ b ++ c)%string.
Proof.
  induction a as [|x a IH]; [reflexivity|].
  rewrite !append_cons. now rewrite IH.
Qed.

Lemma starts_floating_prefix s :
  starts_floating s = true <-> has_floating_prefix s.
Proof.
  split.
  - unfold starts_floating. intros Hs.
    assert (exists neg body, s = (sign_text neg ++ body)%string
                             /\ split_sign true s = (neg, body))
      as (neg & body & -> & E).
    { destruct (split_sign_cases true s) as [E|(_ & s' & -> & E)].
      - exists false, s. auto.
      - exists true, s'. auto. }
    rewrite E in Hs. destruct body as [|c rest]; [discriminate|].
    apply orb_true_iff in Hs as [Hs|Hnan].
    apply orb_true_iff in Hs as [Hs|Hinf].
    apply orb_true_iff in Hs as [Hd|Hp].
    + exists (sign_text neg ++ String c EmptyString ++ EmptyString)%string, rest.
      split; [destruct neg; reflexivity|].
      constructor; [|constructor].
      apply significand_integer. unfold digit_sequence. simpl.
      rewrite Hd. reflexivity.
    + apply andb_true_iff in Hp as [Hc Hd].
      apply Ascii.eqb_eq in Hc as ->.
      destruct rest as [|d rest]; [discriminate|].
      exists (sign_text neg
              ++ (EmptyString ++ String "." (String d EmptyString))
              ++ EmptyString)%string, rest.
      split; [destruct neg; reflexivity|].
      constructor; [|constructor].
      apply significand_fraction; [reflexivity| |reflexivity].
      simpl. rewrite Hd. reflexivity.
    + destruct rest as [|c2 [|c3 rest]]; try discriminate.
      simpl in Hinf.
      apply andb_true_iff in Hinf as [Hinf H3].
      apply andb_true_iff in Hinf as [H1 H2].
      apply Ascii.eqb_eq in H1, H2, H3.
      exists (sign_text neg ++ String c (String c2 (String c3 EmptyString)))%string,
             rest.
      split; [destruct neg; reflexivity|].
      apply floating_special, special_inf. simpl. congruence.
    + destruct rest as [|c2 [|c3 rest]]; try discriminate.
      simpl in Hnan.
      apply andb_true_iff in Hnan as [Hnan H3].
      apply andb_true_iff in Hnan as [H1 H2].
      apply Ascii.eqb_eq in H1, H2, H3.
      exists (sign_text neg ++ String c (String c2 (String c3 EmptyString)))%string,
             rest.
      split; [destruct neg; reflexivity|].
      apply floating_special, special_nan. simpl. congruence.
  - intros (p & r & -> & Hp).
    destruct Hp as [neg m e Hm He|neg w Hw]; rewrite !append_assoc.
    + destruct Hm as [i Hi|i f Hi Hf Hne].
      * apply digit_sequence_head in Hi as (c & i' & -> & Hc).
        rewrite !append_cons. now apply starts_floating_digit.
      * destruct i as [|c i'].
        -- destruct f as [|d f']; [discriminate|].
           simpl in Hf. apply andb_true_iff in Hf as [Hd _].
           rewrite append_nil, !append_cons.
           now apply starts_floating_point.
        -- simpl in Hi. apply andb_true_iff in Hi as [Hc _].
           rewrite !append_cons. now apply starts_floating_digit.
    + destruct Hw as [w Hw|w Hw|w Hw|w seq Hw Hseq];
        rewrite ?append_assoc; eapply starts_floating_word; eauto.
Qed.

End charconv_facts.

Section fmt_facts.
Import charconv fmt.

Lemma digit_char_spec d :
  0 <= d < 10 ->
  is_digit (digit_char d) = true /\ digit_value (digit_char d) = d.
Proof.
  intros Hd.
  assert (Hc : d = 0 \/ d = 1 \/ d = 2 \/ d = 3 \/ d = 4 \/ d = 5 \/ d = 6
               \/ d = 7 \/ d = 8 \/ d = 9) by lia.
  repeat (destruct Hc as [->|Hc]; [split; reflexivity|]).
  subst d. split; reflexivity.
Qed.

Lemma read_digits_digit d tail acc cnt :
  0 <= d < 10 ->
  read_digits (String (digit_char d) tail) acc cnt
  = read_digits tail (acc * 10 + d) (S cnt).
Proof.
  intros Hd. destruct (digit_char_spec d Hd) as [H1 H2].
  cbn [read_digits]. rewrite H1, H2. reflexivity.
Qed.

Lemma to_chars_fuel_S fuel n tail :
  to_chars_fuel (S fuel) n tail
  = if n <? 10 then String (digit_char (n mod 10)) tail
    else to_chars_fuel fuel (n / 10) (String (digit_char (n mod 10)) tail).
Proof. reflexivity. Qed.

(** Reading back what [to_chars_fuel] wrote: the digits written in front of
    [tail] shift the accumulator and add [n]. *)
Lemma read_digits_to_chars fuel :
  forall n tail acc cnt,
    0 <= n < 2 ^ Z.of_nat (S fuel) ->
    exists k,
      read_digits (to_chars_fuel (S fuel) n tail) acc cnt
      = read_digits tail (acc * 10 ^ Z.of_nat (S k) + n) (S k + cnt).
Proof.
  induction fuel as [|fuel IH]; intros n tail acc cnt Hn.
  - exists O. change (2 ^ Z.of_nat 1) with 2 in Hn.
    assert (Hmod : n mod 10 = n) by (apply Z.mod_small; lia).
    rewrite to_chars_fuel_S. cbn [to_chars_fuel]. rewrite Hmod.
    destruct (n <? 10); rewrite read_digits_digit by lia; f_equal; lia.
  - rewrite to_chars_fuel_S. destruct (Z.ltb_spec n 10) as [Hlt|Hge].
    + exists O. rewrite Z.mod_small by lia.
      rewrite read_digits_digit by lia. f_equal; lia.
    + assert (Hdiv : 0 <= n / 10 < 2 ^ Z.of_nat (S fuel)).
      { split; [apply Z.div_pos; lia|].
        apply Z.div_lt_upper_bound; [lia|].
        rewrite (Nat2Z.inj_succ (S fuel)), Z.pow_succ_r in Hn by lia. lia. }
      destruct (IH (n / 10) (String (digit_char (n mod 10)) tail) acc cnt Hdiv)
        as [k Hk].
      exists (S k). rewrite Hk.
      rewrite read_digits_digit by (apply Z.mod_pos_bound; lia).
      f_equal.
      rewrite (Nat2Z.inj_succ (S k)), Z.pow_succ_r by lia.
      pose proof (Z.div_mod n 10 ltac:(lia)). lia.
Qed.

Lemma read_digits_format_unsigned n :
  0 <= n -> exists k, read_digits (format_unsigned n) 0 0 = (n, S k).
Proof.
  intros Hn. unfold format_unsigned.
  assert (Hb : 0 <= n < 2 ^ Z.of_nat (S (Z.to_nat (Z.log2 n)))).
  { split; [exact Hn|].
    rewrite Nat2Z.inj_succ, Z2Nat.id by apply Z.log2_nonneg.
    destruct (Z.eq_dec n 0) as [->|Hne]; [reflexivity|].
    apply Z.log2_spec. lia. }
  destruct (read_digits_to_chars _ n EmptyString 0 O Hb) as [k Hk].
  exists k. rewrite Hk. simpl. f_equal; lia.
Qed.

(** [from_chars] reads back what [format] wrote, whatever the value held
    before. *)
Lemma from_chars_format signed lo hi z old :
  lo <= z <= hi -> signed = true \/ 0 <= z ->
  exists r,
    from_chars signed lo hi (format_integer z) old = (r, z)
    /\ ec r = errc_none.
Proof.
  intros Hr Hs. unfold format_integer, from_chars.
  destruct (Z.ltb_spec z 0) as [Hneg|Hpos].
  - destruct Hs as [->|?]; [|lia].
    rewrite split_sign_minus.
    destruct (read_digits_format_unsigned (- z)) as [k ->]; [lia|].
    rewrite Z.opp_involutive.
    assert (Hin : (lo <=? z) && (z <=? hi) = true)
      by (apply andb_true_iff; split; apply Z.leb_le; lia).
    rewrite Hin. eauto.
  - destruct (read_digits_format_unsigned z Hpos) as [k Hk].
    destruct (split_sign_cases signed (format_unsigned z))
      as [E|(_ & s' & Es & _)].
    + rewrite E, Hk.
      assert (Hin : (lo <=? z) && (z <=? hi) = true)
        by (apply andb_true_iff; split; apply Z.leb_le; lia).
      rewrite Hin. eauto.
    + rewrite Es in Hk. discriminate Hk.
Qed.

End fmt_facts.

(** ** Casts between integer types *)

Section integer_cast_facts.
Import type.

Lemma cast_unsigned_spec bits n :
  0 < bits ->
  0 <= cast_unsigned bits n < 2 ^ bits
  /\ (cast_unsigned bits n - n) mod 2 ^ bits = 0.
Proof.
  intros Hb. unfold cast_unsigned.
  assert (Hm : 0 < 2 ^ bits) by (apply Z.pow_pos_nonneg; lia).
  split; [apply Z.mod_pos_bound; exact Hm|].
  rewrite Zminus_mod, Zmod_mod, <- Zminus_mod, Z.sub_diag. reflexivity.
Qed.

Lemma cast_signed_spec bits n :
  0 < bits ->
  - 2 ^ (bits - 1) <= cast_signed bits n < 2 ^ (bits - 1)
  /\ (cast_signed bits n - n) mod 2 ^ bits = 0.
Proof.
  intros Hb. unfold cast_signed.
  assert (Hpow : 2 ^ bits = 2 * 2 ^ (bits - 1)).
  { rewrite <- Z.pow_succ_r by lia. f_equal. lia. }
  assert (Hpos : 0 < 2 ^ (bits - 1)) by (apply Z.pow_pos_nonneg; lia).
  set (h := 2 ^ (bits - 1)) in *. rewrite Hpow.
  pose proof (Z.mod_pos_bound (n + h) (2 * h) ltac:(lia)) as Hs.
  split; [lia|].
  replace ((n + h) mod (2 * h) - h - n) with ((n + h) mod (2 * h) - (n + h))
    by lia.
  rewrite Zminus_mod, Zmod_mod, <- Zminus_mod, Z.sub_diag. reflexivity.
Qed.

(** A value inside the range that is congruent to [n] is [n] when [n] is
    inside the range too. *)
Lemma congruent_in_range lo m z n :
  0 < m -> lo <= z < lo + m -> lo <= n < lo + m -> (z - n) mod m = 0 -> z = n.
Proof.
  intros Hm Hz Hn Hc.
  apply Z.mod_divide in Hc as [q Hq]; [|lia].
  assert (q = 0) by nia. lia.
Qed.

Lemma bits_pos t : 0 < bits t.
Proof. destruct t; reflexivity. Qed.

Lemma cast_spec t n :
  min t <= cast t n <= max t /\ (cast t n - n) mod 2 ^ bits t = 0.
Proof.
  unfold cast, min, max. pose proof (bits_pos t) as Hb.
  destruct (signed t).
  - destruct (cast_signed_spec (bits t) n Hb) as [Hr Hc]. split; [lia|exact Hc].
  - destruct (cast_unsigned_spec (bits t) n Hb) as [Hr Hc]. split; [lia|exact Hc].
Qed.

Lemma cast_holds t n : holds t n = true -> cast t n = n.
Proof.
  unfold holds. intros Hh. apply andb_true_iff in Hh as [H1 H2].
  apply Z.leb_le in H1, H2.
  destruct (cast_spec t n) as [Hr Hc].
  assert (Hm : 0 < 2 ^ bits t)
    by (apply Z.pow_pos_nonneg; [lia|pose proof (bits_pos t); lia]).
  assert (Hw : max t = min t + 2 ^ bits t - 1).
  { unfold min, max. destruct t; reflexivity. }
  apply (congruent_in_range (min t) (2 ^ bits t)); [exact Hm|lia|lia|exact Hc].
Qed.

End integer_cast_facts.

(** ** Configuration items *)

Section config_item_facts.
Context {double : Type} `{!charconv.floating_point double}.
Import cfg.

Implicit Types (item other : config_item double) (text : string).

Lemma set_text_name text item : name_ (set_text text item) = name_ item.
Proof. reflexivity. Qed.

Lemma set_text_index text item :
  index (value_ (set_text text item)) = index (value_ item).
Proof. destruct item as [nm []]; reflexivity. Qed.

Lemma to_make k (v : kind_type double k) nm :
  to k {| name_ := nm; value_ := make k v |} = returns v.
Proof. destruct k; reflexivity. Qed.

(** C2. A textual [set] on an item whose active kind is numeric, with a text
    that has no valid numeric prefix for that kind, gives back the item as it
    was: [from_chars] answers [invalid_argument], and [set] drops the
    answer. *)
Theorem set_text_without_numeric_prefix item text :
  index (value_ item) <> Bool ->
  ~ has_numeric_prefix (index (value_ item)) text ->
  set_text text item = item
  /\ set_text_ec text item = Some charconv.invalid_argument.
Proof.
  destruct item as [nm [b|n|n|d]]; cbn [value_ index has_numeric_prefix];
    intros Hk Hp; [contradiction| | |].
  - assert (Hs : charconv.starts_integer false text = false).
    { destruct (charconv.starts_integer false text) eqn:E; [|reflexivity].
      contradiction Hp. now apply starts_integer_prefix. }
    unfold set_text, set_text_ec, charconv.from_chars_uint8. cbn [value_ name_].
    rewrite (from_chars_no_match _ _ _ _ _ Hs). split; reflexivity.
  - assert (Hs : charconv.starts_integer true text = false).
    { destruct (charconv.starts_integer true text) eqn:E; [|reflexivity].
      contradiction Hp. now apply starts_integer_prefix. }
    unfold set_text, set_text_ec, charconv.from_chars_int. cbn [value_ name_].
    rewrite (from_chars_no_match _ _ _ _ _ Hs). split; reflexivity.
  - assert (Hs : charconv.starts_floating text = false).
    { destruct (charconv.starts_floating text) eqn:E; [|reflexivity].
      contradiction Hp. now apply starts_floating_prefix. }
    unfold set_text, set_text_ec, charconv.from_chars_double. cbn [value_ name_].
    rewrite Hs. split; reflexivity.
Qed.

(** C3. A textual [set] on an item whose active kind is boolean stores a
    boolean, and stores [true] exactly when the text is ["1"] or
    ["true"]. *)
Theorem set_text_bool item text :
  index (value_ item) = Bool ->
  exists b,
    set_text text item = {| name_ := name_ item; value_ := of_bool b |}
    /\ (b = true <-> text = "1"%string \/ text = "true"%string).
Proof.
  destruct item as [nm [b|n|n|d]]; cbn [value_ index]; try discriminate.
  intros _. eexists. split; [reflexivity|].
  rewrite orb_true_iff, !String.eqb_eq. reflexivity.
Qed.

(** C4. For an item holding a boolean or an integer (of either integer
    kind), the text [to<std::string>()] yields, set textually on any item of
    the same active kind, stores the original value; in particular
    [set(to<std::string>())] on the item itself gives the item back. *)
Theorem set_to_string_round_trip item other :
  index (value_ item) <> Double ->
  in_range (value_ item) ->
  index (value_ other) = index (value_ item) ->
  value_ (set_text (to_string item) other) = value_ item
  /\ set_text (to_string item) item = item.
Proof.
  assert (Hint : forall signed lo hi z old,
             lo <= z <= hi -> signed = true \/ 0 <= z ->
             snd (charconv.from_chars signed lo hi (fmt.format_integer z) old)
             = z).
  { intros signed lo hi z old Hr Hs.
    destruct (from_chars_format signed lo hi z old Hr Hs) as (r & -> & _).
    reflexivity. }
  destruct item as [nm [b|n|n|d]], other as [nm' [b'|n'|n'|d']];
    cbn [value_ index in_range]; intros Hk Hr Ho;
    try discriminate; try contradiction;
    unfold set_text, to_string; cbn [value_ name_].
  - destruct b; split; reflexivity.
  - unfold charconv.from_chars_uint8.
    rewrite !Hint by (unfold type.is_uint8 in Hr; lia || (right; lia)).
    split; reflexivity.
  - unfold charconv.from_chars_int.
    rewrite !Hint by (unfold type.is_int in Hr; lia || (left; reflexivity)).
    split; reflexivity.
Qed.

(** C9. The checked accessor [to<K>()] returns exactly when [K] is the
    active kind, and then returns the stored value; for every other declared
    kind it throws [bad_variant_access]. It never converts. *)
Theorem to_checked item (k : kind) :
  match to k item with
  | returns v => index (value_ item) = k /\ value_ item = make k v
  | throws e => index (value_ item) <> k /\ e = bad_variant_access
  end.
Proof.
  destruct item as [nm [b|n|n|d]], k; cbn; split; congruence.
Qed.

End config_item_facts.

Section conversion_facts.
Context {double : Type} `{!cfg.floating_casts double}.
Import cfg.

Implicit Types (item : config_item double).

(** C10, as the code has it. For an item whose integers are inside the range
    of their type and a target among [bool], the integer types and
    [double], the conversion operator never throws, whichever kind is
    active. It has no result exactly when a [double] is asked for as an
    integer type that cannot hold its truncated value. Otherwise it returns
    the cast of the active value: what the checked accessor returns when
    the target is the active kind; for the number [n] of a [bool] or integer
    alternative, [n <> 0] as [bool], the value of the target's range
    congruent to [n] modulo 2^bits as an integer type, [n] as [double]; for
    a [double], its comparison with zero as [bool] and its truncated value
    as an integer type that holds it. *)
Theorem operator_Value_coerces (t : target) item :
  in_range (value_ item) ->
  (forall e, operator_Value t item <> Some (throws e))
  /\ (operator_Value t item = None
      <-> exists d i,
            value_ item = of_double d /\ t = to_integral i
            /\ forall z, double_truncate d = Some z -> type.holds i z = false)
  /\ (forall b, to Bool item = returns b ->
        operator_Value to_bool item = Some (returns b))
  /\ (forall n, to Uint8 item = returns n ->
        operator_Value (to_integral type.u8) item = Some (returns n))
  /\ (forall n, to Int item = returns n ->
        operator_Value (to_integral type.i32) item = Some (returns n))
  /\ (forall d, to Double item = returns d ->
        operator_Value to_double item = Some (returns d))
  /\ (forall n, integer_value (value_ item) = Some n ->
        operator_Value to_bool item = Some (returns (negb (n =? 0)))
        /\ operator_Value to_double item = Some (returns (integer_to_double n))
        /\ forall i, exists z,
             operator_Value (to_integral i) item = Some (returns z)
             /\ type.min i <= z <= type.max i
             /\ (z - n) mod 2 ^ type.bits i = 0)
  /\ (forall d, value_ item = of_double d ->
        operator_Value to_bool item = Some (returns (double_to_bool d))
        /\ forall i z, double_truncate d = Some z -> type.holds i z = true ->
             operator_Value (to_integral i) item = Some (returns z)).
Proof.
  intros Hr. split; [|split; [|split; [|split; [|split; [|split; [|split]]]]]].
  - intros e. unfold operator_Value.
    destruct (static_cast t (value_ item)); discriminate.
  - unfold operator_Value. split.
    + intros Hn. destruct t as [|i|]; cbn [static_cast] in Hn; try discriminate.
      destruct (value_ item) as [b|n|n|d]; try discriminate.
      exists d, i. split; [reflexivity|]. split; [reflexivity|].
      intros z Hz. rewrite Hz in Hn.
      destruct (type.holds i z); [discriminate|reflexivity].
    + intros (d & i & Hv & -> & Hz). rewrite Hv. cbn [static_cast].
      destruct (double_truncate d) as [z|]; [|reflexivity].
      rewrite (Hz z eq_refl). reflexivity.
  - intros b. destruct item as [nm [b'|n|n|d]]; cbn; congruence.
  - intros n Hto. unfold to in Hto.
    destruct item as [nm [b'|n'|n'|d]]; cbn [get value_] in Hto;
      try discriminate.
    injection Hto as ->. cbn [value_ in_range] in Hr.
    unfold operator_Value. cbn [value_ static_cast].
    rewrite cast_holds; [reflexivity|].
    unfold type.is_uint8 in Hr. apply andb_true_iff.
    split; apply Z.leb_le; [apply Hr|]. unfold type.uint8_max in Hr.
    change (type.max type.u8) with 255. lia.
  - intros n Hto. unfold to in Hto.
    destruct item as [nm [b'|n'|n'|d]]; cbn [get value_] in Hto;
      try discriminate.
    injection Hto as ->. cbn [value_ in_range] in Hr.
    unfold operator_Value. cbn [value_ static_cast].
    rewrite cast_holds; [reflexivity|].
    unfold type.is_int, type.int_min, type.int_max in Hr. apply andb_true_iff.
    change (type.min type.i32) with (- 2 ^ 31).
    change (type.max type.i32) with (2 ^ 31 - 1).
    split; apply Z.leb_le; lia.
  - intros d. destruct item as [nm [b'|n|n|d']]; cbn; congruence.
  - intros n Hn. unfold operator_Value.
    destruct item as [nm [b|n'|n'|d]]; cbn [value_ integer_value] in Hn;
      try discriminate; injection Hn as <-; cbn [value_ static_cast];
      (split; [try reflexivity; destruct b; reflexivity|]);
      (split; [reflexivity|]); intros i; eexists;
      (split; [reflexivity|]); apply cast_spec.
  - intros d Hv. unfold operator_Value. rewrite Hv. cbn [static_cast].
    split; [reflexivity|]. intros i z Hz Hh. rewrite Hz, Hh. reflexivity.
Qed.

End conversion_facts.

Lemma set_text_without_numeric_prefix_witness :
  cfg.set_text "abc" sample.width = sample.width
  /\ cfg.set_text_ec "abc" sample.width = Some charconv.invalid_argument.
Proof.
  apply (set_text_without_numeric_prefix sample.width "abc").
  - discriminate.
  - intros Hp. apply starts_integer_prefix in Hp. discriminate Hp.
Defined.

Lemma set_text_bool_witness :
  exists b,
    cfg.set_text "yes" sample.enabled
    = {| cfg.name_ := "serial enabled"; cfg.value_ := cfg.of_bool b |}
    /\ (b = true <-> "yes"%string = "1"%string \/ "yes"%string = "true"%string).
Proof. apply (set_text_bool sample.enabled "yes"). reflexivity. Defined.

Lemma set_to_string_round_trip_witness :
  cfg.value_ (cfg.set_text (cfg.to_string sample.width) sample.height)
  = cfg.of_int 800
  /\ cfg.set_text (cfg.to_string sample.width) sample.width = sample.width.
Proof.
  apply (set_to_string_round_trip sample.width sample.height).
  - discriminate.
  - vm_compute. split; discriminate.
  - reflexivity.
Defined.

Lemma operator_Value_coerces_witness :
  cfg.in_range (cfg.value_ sample.frame_width)
  /\ (forall e,
        cfg.operator_Value (cfg.to_integral type.u8) sample.frame_width
        <> Some (cfg.throws e))
  /\ cfg.operator_Value (cfg.to_integral type.i32) sample.frame_width
     = Some (cfg.returns 640).
Proof.
  assert (Hr : cfg.in_range (cfg.value_ sample.frame_width))
    by (vm_compute; split; discriminate).
  split; [exact Hr|].
  destruct (operator_Value_coerces (cfg.to_integral type.u8)
              sample.frame_width Hr) as (Hthrow & _ & _ & _ & Hint & _).
  split; [exact Hthrow|]. apply Hint. reflexivity.
Defined.

(** C10, as stated, fails: the gain holds the [double] 1e10, whose truncated
    value no [int] holds, and the conversion of the item to [int] has no
    result. *)
Lemma operator_Value_undefined_counterexample :
  cfg.to cfg.Double sample.gain
  = cfg.returns (PrimFloat.of_uint63 (Uint63.of_Z 10000000000))
  /\ cfg.double_truncate (PrimFloat.of_uint63 (Uint63.of_Z 10000000000))
     = Some 10000000000
  /\ type.holds type.i32 10000000000 = false
  /\ cfg.operator_Value (cfg.to_integral type.i32) sample.gain = None.
Proof. repeat split; vm_compute; reflexivity. Qed.

Example operator_Value_wraps :
  cfg.operator_Value (cfg.to_integral type.u8) sample.frame_width
  = Some (cfg.returns 128)
  /\ cfg.operator_Value cfg.to_bool sample.frame_width = Some (cfg.returns true)
  /\ cfg.operator_Value cfg.to_bool sample.gain = Some (cfg.returns true)
  /\ cfg.to cfg.Bool sample.frame_width = cfg.throws cfg.bad_variant_access.
Proof. repeat split; vm_compute; reflexivity. Qed.
(** ** Vectors and iterators *)

Section vector_facts.
Context {T : Type}.
Import vec.
Local Open Scope nat_scope.

Implicit Types (l : list T) (v : vector T) (it : iterator).

Lemma iterator_eqb_eq it1 it2 : iterator_eqb it1 it2 = true <-> it1 = it2.
Proof.
  destruct it1 as [b1 p1], it2 as [b2 p2]. unfold iterator_eqb. cbn.
  rewrite andb_true_iff, !Nat.eqb_eq. split; [intros [-> ->]|intros [= -> ->]]; auto.
Qed.

Lemma iterator_eqb_neq it1 it2 : iterator_eqb it1 it2 = false <-> it1 <> it2.
Proof.
  rewrite <- iterator_eqb_eq. destruct (iterator_eqb it1 it2); split; congruence.
Qed.

(** The loop of [find_if] stops at the first element that satisfies the
    predicate, and at the end when none does. *)
Lemma find_if_from_spec pred l : forall pos,
  let i := find_if_from pred l pos in
  pos <= i <= pos + length l
  /\ (forall j x, l !! j = Some x -> pos + j < i -> pred x = false)
  /\ (i < pos + length l -> exists x, l !! (i - pos) = Some x /\ pred x = true).
Proof.
  induction l as [|y l IH]; intros pos; cbn [find_if_from length].
  - repeat split; [lia..| |lia]. intros j x Hj. rewrite lookup_nil in Hj.
    discriminate.
  - destruct (pred y) eqn:Hy.
    + repeat split; [lia..| |]. { intros j x _ Hlt. lia. }
      intros _. exists y. rewrite Nat.sub_diag. auto.
    + destruct (IH (S pos)) as (Hr & Hbefore & Hat).
      repeat split; [lia..| |].
      * intros [|j] x Hj Hlt; cbn in Hj; [congruence|].
        apply (Hbefore j x Hj). lia.
      * intros Hlt. destruct Hat as (x & Hx & Hp); [lia|].
        exists x. split; [|exact Hp].
        replace (find_if_from pred l (S pos) - pos)
          with (S (find_if_from pred l (S pos) - S pos)) by lia.
        exact Hx.
Qed.

Lemma find_if_from_found pred l pos x :
  x ∈ l -> pred x = true -> find_if_from pred l pos < pos + length l.
Proof.
  intros Hx Hp. apply list_elem_of_lookup in Hx as [j Hj].
  destruct (find_if_from_spec pred l pos) as (Hr & Hbefore & _).
  pose proof (lookup_lt_Some _ _ _ Hj) as Hlt.
  destruct (Nat.lt_ge_cases (find_if_from pred l pos) (pos + length l))
    as [?|Hge]; [assumption|].
  specialize (Hbefore j x Hj ltac:(lia)). congruence.
Qed.

Lemma equal_spec {A : Type} (eq : T -> T -> bool) (f : T -> A) l1 l2 :
  (forall x y, eq x y = true <-> f x = f y) ->
  equal eq l1 l2 = true <-> f <$> l1 = f <$> l2.
Proof.
  intros Heq. revert l2.
  induction l1 as [|x l1 IH]; intros [|y l2]; cbn; try (split; congruence).
  rewrite andb_true_iff, Heq, IH. split; [intros [-> ->]|intros [= -> ->]]; auto.
Qed.

End vector_facts.

(** ** Menu options and menus *)

Section menu_facts.
Context {double : Type} `{!charconv.floating_point double}.
Context {Action : Type} `{!ui.invocable (double := double) Action}.
Context `{!vec.growth_policy}.
Import vec ui.
Local Open Scope nat_scope.

Implicit Types (m : menu Action) (o : menu_option Action) (k : ascii).
Implicit Types (s : gmap nat (cfg.config_item double)).

(** [select] answers [true] exactly when the scan stopped before the end. *)
Lemma select_true k m :
  (select k m).2 = true
  <-> it_pos (selection_ (select k m).1) < size (options_ m).
Proof.
  unfold select, find_if, end_, size. cbn [fst snd selection_ it_pos].
  destruct (find_if_from_spec (fun o => Ascii.eqb (key o) k)
              (data (options_ m)) 0) as (Hr & _).
  rewrite negb_true_iff, iterator_eqb_neq. split.
  - intros Hne.
    destruct (Nat.eq_dec (find_if_from (fun o => Ascii.eqb (key o) k)
                            (data (options_ m)) 0) (length (data (options_ m))))
      as [E|E]; [|lia].
    contradiction Hne. rewrite E. reflexivity.
  - intros Hlt [= E]. lia.
Qed.

(** C1. [select(k)] leaves the options as they are and scans them in order.
    Either it answers [true], and the cursor is at the first option whose
    key is [k]; or it answers [false], no option has the key [k], and the
    cursor is the end of the sequence, wherever it was before. *)
Theorem select_first_match k m :
  let m' := (select k m).1 in
  options_ m' = options_ m
  /\ (((select k m).2 = true
       /\ exists i o,
            selection_ m' = {| it_buf := buffer (options_ m); it_pos := i |}
            /\ data (options_ m) !! i = Some o
            /\ key o = k
            /\ (forall j o', j < i -> data (options_ m) !! j = Some o' -> key o' <> k)
            /\ selection m' = Some o)
      \/ ((select k m).2 = false
          /\ (forall o, o ∈ data (options_ m) -> key o <> k)
          /\ selection_ m' = end_ (options_ m)
          /\ selection m' = None)).
Proof.
  cbn zeta. split; [reflexivity|].
  unfold select, selection, find_if, end_, size, deref. cbn [fst snd options_ selection_ it_buf it_pos].
  rewrite Nat.eqb_refl.
  destruct (find_if_from_spec (fun o => Ascii.eqb (key o) k) (data (options_ m)) 0)
    as (Hr & Hbefore & Hat).
  set (i := find_if_from _ _ 0) in *.
  destruct (Nat.eq_dec i (length (data (options_ m)))) as [Hend|Hin].
  - right. rewrite Hend. split; [|split; [|split]].
    + apply negb_false_iff, iterator_eqb_eq. reflexivity.
    + intros o Ho Hk. apply list_elem_of_lookup in Ho as [j Hj].
      pose proof (lookup_lt_Some _ _ _ Hj) as Hlt.
      specialize (Hbefore j o Hj ltac:(lia)). cbn in Hbefore.
      rewrite Hk, Ascii.eqb_refl in Hbefore. discriminate.
    + reflexivity.
    + apply lookup_ge_None. lia.
  - left. destruct Hat as (o & Ho & Hk); [lia|].
    rewrite Nat.sub_0_r in Ho. apply Ascii.eqb_eq in Hk.
    split.
    + apply negb_true_iff, iterator_eqb_neq. intros [= E]. contradiction.
    + exists i, o. repeat split; auto.
      intros j o' Hj Ho' Hk'. specialize (Hbefore j o' Ho' ltac:(lia)).
      cbn in Hbefore. rewrite Hk', Ascii.eqb_refl in Hbefore. discriminate.
Qed.

(** C5. [apply(value)] on an option that points at an item: the item is set
    first, nothing else in the store changes, and the action, when it has a
    target, is invoked on the store that already holds the new value; with no
    target the store after the set is the result. *)
Theorem apply_sets_then_invokes (value : argument (double := double)) o s item :
  s !! cfgitem_ o = Some item ->
  exists s',
    commit value o s = Some s'
    /\ s' !! cfgitem_ o = Some (cfgitem_set value item)
    /\ (forall a, a <> cfgitem_ o -> s' !! a = s !! a)
    /\ apply value o s
       = Some (if has_target (action_ o) then invoke (action_ o) s' else s').
Proof.
  intros Hitem. unfold apply, commit. rewrite Hitem.
  eexists. split; [reflexivity|]. split; [apply lookup_insert_eq|].
  split.
  - intros a Ha. apply lookup_insert_ne. congruence.
  - destruct (has_target (action_ o)); reflexivity.
Qed.

Lemma add_count k c (a : Action) m : count (add k c a m) = S (count m).
Proof.
  unfold count, add, emplace_back, size. cbn [options_].
  destruct (_ <? _); cbn [data]; rewrite length_app; cbn; lia.
Qed.

Lemma add_keys k c (a : Action) m : keys (add k c a m) = keys m ++ [k].
Proof.
  unfold keys, add, emplace_back. cbn [options_].
  destruct (_ <? _); cbn [data]; rewrite fmap_app; reflexivity.
Qed.

(** After a successful [select] the cursor may be read through. *)
Lemma select_valid_for_reads k m :
  (select k m).2 = true -> valid_for_reads (select k m).1 = true.
Proof.
  intros Hs. apply select_true in Hs.
  unfold valid_for_reads, dereferenceable.
  change (options_ (select k m).1) with (options_ m).
  change (it_buf (selection_ (select k m).1)) with (buffer (options_ m)).
  rewrite Nat.eqb_refl. apply Nat.ltb_lt. exact Hs.
Qed.

(** With the cursor as the operand of [erase], the option under a readable
    cursor goes, and only it. *)
Lemma erase_at_cursor_spec m :
  valid_for_reads m = true ->
  exists m',
    erase_at_cursor m = Some m'
    /\ data (options_ m') = delete (it_pos (selection_ m)) (data (options_ m))
    /\ S (count m') = count m.
Proof.
  unfold valid_for_reads, erase_at_cursor, erase. intros Hv. rewrite Hv.
  eexists. split; [reflexivity|]. split; [reflexivity|].
  unfold dereferenceable in Hv. apply andb_true_iff in Hv as [_ Hlt].
  apply Nat.ltb_lt in Hlt. unfold count, size in *. cbn [options_ data].
  rewrite length_delete; [lia|]. apply lookup_lt_is_Some. exact Hlt.
Qed.

(** X10. An [add] that finds room in the storage keeps a readable cursor
    readable, and on the option it was on. *)
Lemma add_in_place_keeps_cursor k c (a : Action) m :
  size (options_ m) < capacity (options_ m) ->
  valid_for_reads m = true ->
  valid_for_reads (add k c a m) = true
  /\ selection (add k c a m) = selection m.
Proof.
  unfold valid_for_reads, selection, dereferenceable, deref, add, emplace_back.
  intros Hroom Hv. apply Nat.ltb_lt in Hroom. cbn [options_ selection_].
  rewrite Hroom. cbn [buffer data size].
  apply andb_true_iff in Hv as [Hb Hlt]. rewrite Hb.
  apply Nat.ltb_lt in Hlt. unfold size in *. split.
  - cbn [data andb]. apply Nat.ltb_lt. rewrite length_app. cbn. lia.
  - cbn [data]. apply lookup_app_l. exact Hlt.
Qed.




(** C8, as the code has it. The defaulted equality holds exactly when the
    two option sequences have the same keys in the same order and the two
    cursors are the same iterator. *)
Theorem menu_eqb_spec (lhs rhs : menu Action) :
  menu_eqb lhs rhs = true
  <-> keys lhs = keys rhs /\ selection_ lhs = selection_ rhs.
Proof.
  unfold menu_eqb, vector_eqb, keys.
  rewrite andb_true_iff, iterator_eqb_eq.
  rewrite (equal_spec option_eqb key).
  - reflexivity.
  - intros x y. unfold option_eqb. apply Ascii.eqb_eq.
Qed.

End menu_facts.

Section menu_scenarios.
Context {Action : Type} `{!vec.growth_policy}.
Import vec ui.
Local Open Scope nat_scope.

(** A key that was just added is found. *)
Lemma select_added k c (a : Action) (m : menu Action) :
  (select k (add k c a m)).2 = true.
Proof.
  apply select_true. unfold select, find_if. cbn [fst selection_ it_pos].
  apply (find_if_from_found _ _ 0 {| action_ := a; cfgitem_ := c; key_ := k |}).
  - unfold add, emplace_back. cbn [options_].
    destruct (_ <? _); cbn [data]; apply elem_of_app; right;
      apply list_elem_of_singleton; reflexivity.
  - apply Ascii.eqb_refl.
Qed.

(** What [remove()] is after: with the cursor as the operand of [erase], an
    [add], a [select] of the added key and the erasure bring the number of
    options back to what it was. *)
Lemma add_select_erase_count k c (a : Action) (m : menu Action) :
  exists m',
    erase_at_cursor (select k (add k c a m)).1 = Some m'
    /\ count m' = count m.
Proof.
  pose proof (select_valid_for_reads k (add k c a m) (select_added k c a m)) as Hv.
  destruct (erase_at_cursor_spec _ Hv) as (m' & He & _ & Hc).
  exists m'. split; [exact He|].
  assert (count (select k (add k c a m)).1 = S (count m)) as Hs
    by apply add_count.
  lia.
Qed.

End menu_scenarios.

(** ** Concrete items and menus *)

Example tagname_screen_width : cfg.tagname sample.width = "screen-width"%string.
Proof. reflexivity. Qed.

Example format_800 : fmt.format_integer 800 = "800"%string.
Proof. reflexivity. Qed.

Example format_int_min :
  fmt.format_integer type.int_min = "-2147483648"%string.
Proof. reflexivity. Qed.

Example parse_12abc :
  charconv.from_chars_int "12abc" 800
  = ({| charconv.ptr := 2; charconv.ec := charconv.errc_none |}, 12%Z).
Proof. reflexivity. Qed.

Example parse_256_uint8 :
  charconv.from_chars_uint8 "256" 7
  = ({| charconv.ptr := 3; charconv.ec := charconv.result_out_of_range |}, 7%Z).
Proof. reflexivity. Qed.

Example set_text_true :
  cfg.value_ (cfg.set_text "true" sample.enabled) = cfg.of_bool true
  /\ cfg.value_ (cfg.set_text "1" sample.enabled) = cfg.of_bool true
  /\ cfg.value_ (cfg.set_text "0" sample.enabled) = cfg.of_bool false
  /\ cfg.value_ (cfg.set_text "yes" sample.enabled) = cfg.of_bool false.
Proof. repeat split; reflexivity. Qed.

Example to_int_width : cfg.to cfg.Int sample.width = cfg.returns 800%Z.
Proof. reflexivity. Qed.

Example to_bool_width :
  cfg.to cfg.Bool sample.width = cfg.throws cfg.bad_variant_access.
Proof. reflexivity. Qed.

Example select_w :
  (ui.select "w" sample.two_keys).2 = true
  /\ ui.key <$> ui.selection (ui.select "w" sample.two_keys).1 = Some "w"%char.
Proof. split; reflexivity. Qed.

Example select_missing :
  (ui.select "x" sample.h_selected).2 = false
  /\ ui.unselected (ui.select "x" sample.h_selected).1 = true.
Proof. split; reflexivity. Qed.

(** The action of [width_option] runs after the set: it reads 1024. *)
Example apply_mirror :
  cfg.value_
    <$> (ui.apply (ui.arithmetic (cfg.of_int 1024)) sample.width_option
           sample.items ≫= lookup 2%nat)
  = Some (cfg.of_int 1024).
Proof. reflexivity. Qed.

Lemma apply_sets_then_invokes_witness :
  exists s',
    ui.commit (ui.arithmetic (cfg.of_int 1024)) sample.width_option sample.items
    = Some s'
    /\ s' !! 1%nat
       = Some (ui.cfgitem_set (ui.arithmetic (cfg.of_int 1024)) sample.width)
    /\ (forall a, a <> 1%nat -> s' !! a = sample.items !! a)
    /\ ui.apply (ui.arithmetic (cfg.of_int 1024)) sample.width_option sample.items
       = Some (ui.invoke sample.mirror s').
Proof.
  exact (apply_sets_then_invokes (ui.arithmetic (cfg.of_int 1024))
           sample.width_option sample.items sample.width eq_refl).
Defined.



(** C8, as stated, fails: the two menus hold the same options in the same
    order, and the defaulted equality tells them apart by their cursors. *)
Lemma menu_eqb_cursor_counterexample :
  vec.vector_eqb ui.option_eqb
    (ui.options_ sample.w_selected) (ui.options_ sample.h_selected_copy) = true
  /\ ui.keys sample.w_selected = ui.keys sample.h_selected_copy
  /\ ui.menu_eqb sample.w_selected sample.h_selected_copy = false.
Proof. repeat split; reflexivity. Qed.

(** ** Literals and type traits *)

Section type_facts.
Import type.

(** X15. Each literal operator yields the value of its own type that is
    congruent to the argument modulo two to the width of that type: 8 bits
    for [_i8] and [_u8], 16 for [_i16] and [_u16], 32 for [_i32] and
    [_u32], 64 for [_i64] and [_u64]. So a literal its type can hold is kept,
    as every [_u64] literal is, and any other one wraps. *)
Theorem literal_wraps n :
  0 <= n < 2 ^ 64 ->
  (- 2 ^ 7 <= lit_i8 n < 2 ^ 7 /\ (lit_i8 n - n) mod 2 ^ 8 = 0
   /\ (n < 2 ^ 7 -> lit_i8 n = n))
  /\ (0 <= lit_u8 n < 2 ^ 8 /\ (lit_u8 n - n) mod 2 ^ 8 = 0
      /\ (n < 2 ^ 8 -> lit_u8 n = n))
  /\ (- 2 ^ 15 <= lit_i16 n < 2 ^ 15 /\ (lit_i16 n - n) mod 2 ^ 16 = 0
      /\ (n < 2 ^ 15 -> lit_i16 n = n))
  /\ (0 <= lit_u16 n < 2 ^ 16 /\ (lit_u16 n - n) mod 2 ^ 16 = 0
      /\ (n < 2 ^ 16 -> lit_u16 n = n))
  /\ (- 2 ^ 31 <= lit_i32 n < 2 ^ 31 /\ (lit_i32 n - n) mod 2 ^ 32 = 0
      /\ (n < 2 ^ 31 -> lit_i32 n = n))
  /\ (0 <= lit_u32 n < 2 ^ 32 /\ (lit_u32 n - n) mod 2 ^ 32 = 0
      /\ (n < 2 ^ 32 -> lit_u32 n = n))
  /\ (- 2 ^ 63 <= lit_i64 n < 2 ^ 63 /\ (lit_i64 n - n) mod 2 ^ 64 = 0
      /\ (n < 2 ^ 63 -> lit_i64 n = n))
  /\ lit_u64 n = n.
Proof.
  intros Hn.
  assert (Hs : forall bits, 0 < bits ->
             - 2 ^ (bits - 1) <= cast_signed bits n < 2 ^ (bits - 1)
             /\ (cast_signed bits n - n) mod 2 ^ bits = 0
             /\ (n < 2 ^ (bits - 1) -> cast_signed bits n = n)).
  { intros bits Hb. destruct (cast_signed_spec bits n Hb) as [Hr Hc].
    split; [exact Hr|]. split; [exact Hc|]. intros Hfit.
    assert (Hpow : 2 ^ bits = 2 * 2 ^ (bits - 1)).
    { rewrite <- Z.pow_succ_r by lia. f_equal. lia. }
    apply (congruent_in_range (- 2 ^ (bits - 1)) (2 ^ bits));
      first [exact Hc|lia]. }
  assert (Hu : forall bits, 0 < bits ->
             0 <= cast_unsigned bits n < 2 ^ bits
             /\ (cast_unsigned bits n - n) mod 2 ^ bits = 0
             /\ (n < 2 ^ bits -> cast_unsigned bits n = n)).
  { intros bits Hb. destruct (cast_unsigned_spec bits n Hb) as [Hr Hc].
    split; [exact Hr|]. split; [exact Hc|]. intros Hfit.
    apply Z.mod_small. lia. }
  unfold lit_i8, lit_u8, lit_i16, lit_u16, lit_i32, lit_u32, lit_i64, lit_u64.
  split; [exact (Hs 8 ltac:(lia))|]. split; [exact (Hu 8 ltac:(lia))|].
  split; [exact (Hs 16 ltac:(lia))|]. split; [exact (Hu 16 ltac:(lia))|].
  split; [exact (Hs 32 ltac:(lia))|]. split; [exact (Hu 32 ltac:(lia))|].
  split; [exact (Hs 64 ltac:(lia))|].
  apply (Hu 64 ltac:(lia)). lia.
Qed.

End type_facts.

Lemma literal_wraps_witness :
  type.lit_u8 300 = 44 /\ type.lit_i8 200 = -56 /\ type.lit_u64 300 = 300.
Proof.
  destruct (literal_wraps 300 ltac:(lia)) as (_ & _ & _ & _ & _ & _ & _ & H64).
  split; [reflexivity|]. split; [reflexivity|]. exact H64.
Defined.

Section is_distinct_facts.
Context {type_name : Type} `{EqDecision type_name}.
Import tt.

Lemma none_same_not_elem (T : type_name) Ts :
  forallb (fun U => negb (bool_decide (T = U))) Ts = true <-> T ∉ Ts.
Proof.
  induction Ts as [|U Ts IH]; cbn.
  - split; [intros _; apply not_elem_of_nil|reflexivity].
  - rewrite andb_true_iff, IH, not_elem_of_cons, negb_true_iff, bool_decide_eq_false.
    reflexivity.
Qed.

(** X14. For two or more types, [is_distinct] is true exactly when no type
    occurs twice in the list. *)
Theorem is_distinct_NoDup (T : type_name) Ts :
  Ts <> [] -> is_distinct T Ts = Some (bool_decide (NoDup (T :: Ts))).
Proof.
  revert T. induction Ts as [|T2 Ts IH]; intros T Hne; [contradiction|].
  destruct Ts as [|T3 Ts].
  - cbn. f_equal. destruct (decide (T = T2)) as [->|Hd].
    + rewrite bool_decide_eq_true_2 by reflexivity. cbn. symmetry.
      apply bool_decide_eq_false. rewrite NoDup_cons. intros [Hn _].
      apply Hn. left.
    + rewrite bool_decide_eq_false_2 by exact Hd. cbn. symmetry.
      apply bool_decide_eq_true. apply NoDup_cons. split.
      * rewrite list_elem_of_singleton. exact Hd.
      * apply NoDup_singleton.
  - change (is_distinct T (T2 :: T3 :: Ts))
      with (if forallb (fun U => negb (bool_decide (T = U))) (T2 :: T3 :: Ts)
            then is_distinct T2 (T3 :: Ts) else Some false).
    destruct (forallb _ (T2 :: T3 :: Ts)) eqn:Hall.
    + apply none_same_not_elem in Hall. rewrite IH by discriminate.
      f_equal. apply bool_decide_ext. rewrite (NoDup_cons T). tauto.
    + f_equal. symmetry. apply bool_decide_eq_false. rewrite NoDup_cons.
      intros [Hn _]. apply none_same_not_elem in Hn. congruence.
Qed.

End is_distinct_facts.

(** ** More on configuration items *)

Section charconv_more_facts.
Import charconv fmt.

Lemma to_chars_fuel_append fuel : forall n tail rest,
  (to_chars_fuel fuel n tail ++ rest)%string
  = to_chars_fuel fuel n (tail ++ rest)%string.
Proof.
  induction fuel as [|fuel IH]; intros n tail rest; [reflexivity|].
  rewrite !to_chars_fuel_S. destruct (n <? 10); [reflexivity|].
  rewrite IH. reflexivity.
Qed.

Lemma read_digits_stop rest acc cnt :
  starts_integer false rest = false -> read_digits rest acc cnt = (acc, cnt).
Proof.
  unfold starts_integer. rewrite split_sign_unsigned. cbn [snd].
  destruct rest as [|c rest]; [reflexivity|]. cbn [read_digits].
  intros ->. reflexivity.
Qed.

Lemma read_digits_format_unsigned_rest n rest :
  0 <= n -> starts_integer false rest = false ->
  exists k, read_digits (format_unsigned n ++ rest) 0 0 = (n, S k).
Proof.
  intros Hn Hrest. unfold format_unsigned.
  rewrite to_chars_fuel_append, append_nil.
  assert (Hb : 0 <= n < 2 ^ Z.of_nat (S (Z.to_nat (Z.log2 n)))).
  { split; [exact Hn|].
    rewrite Nat2Z.inj_succ, Z2Nat.id by apply Z.log2_nonneg.
    destruct (Z.eq_dec n 0) as [->|Hne]; [reflexivity|].
    apply Z.log2_spec. lia. }
  destruct (read_digits_to_chars _ n rest 0 O Hb) as [k Hk].
  exists k. rewrite Hk, read_digits_stop by exact Hrest. f_equal; lia.
Qed.

(** What [from_chars] makes of a decimal literal followed by text that does
    not go on with a digit. *)
Lemma from_chars_literal signed lo hi z rest old :
  signed = true \/ 0 <= z ->
  starts_integer false rest = false ->
  exists n,
    from_chars signed lo hi (format_integer z ++ rest) old
    = if (lo <=? z) && (z <=? hi)
      then ({| ptr := n; ec := errc_none |}, z)
      else ({| ptr := n; ec := result_out_of_range |}, old).
Proof.
  intros Hs Hrest. unfold format_integer, from_chars.
  destruct (Z.ltb_spec z 0) as [Hneg|Hpos].
  - destruct Hs as [->|?]; [|lia].
    rewrite append_cons, split_sign_minus.
    destruct (read_digits_format_unsigned_rest (- z) rest) as [k ->];
      [lia|exact Hrest|].
    rewrite Z.opp_involutive. eexists.
    destruct ((lo <=? z) && (z <=? hi)); reflexivity.
  - destruct (read_digits_format_unsigned_rest z rest Hpos Hrest) as [k Hk].
    destruct (split_sign_cases signed (format_unsigned z ++ rest))
      as [E|(_ & s' & Es & _)].
    + rewrite E, Hk. eexists.
      destruct ((lo <=? z) && (z <=? hi)); reflexivity.
    + rewrite Es in Hk. discriminate Hk.
Qed.

(** [from_chars] hands back the old value or one inside the range. *)
Lemma from_chars_range signed lo hi s old :
  snd (from_chars signed lo hi s old) = old
  \/ lo <= snd (from_chars signed lo hi s old) <= hi.
Proof.
  unfold from_chars. destruct (split_sign signed s) as [neg body].
  destruct (read_digits body 0 0) as [mag [|n]]; [left; reflexivity|].
  destruct (_ && _) eqn:Hin; [right|left; reflexivity].
  apply andb_true_iff in Hin as [H1 H2].
  apply Z.leb_le in H1, H2. cbn [snd]. lia.
Qed.

End charconv_more_facts.

Section config_item_more_facts.
Context {double : Type} `{!charconv.floating_point double}.
Import cfg.

Implicit Types (item : config_item double) (text : string).

Lemma replace_length old new s :
  String.length (replace old new s) = String.length s.
Proof. induction s as [|c s IH]; cbn; [reflexivity|]. now rewrite IH. Qed.

Lemma replace_get old new s : forall i,
  String.get i (replace old new s)
  = (fun c => if Ascii.eqb c old then new else c) <$> String.get i s.
Proof.
  induction s as [|c s IH]; intros i; [reflexivity|].
  destruct i as [|i]; cbn; [reflexivity|]. apply IH.
Qed.

(** X1. The tag name is the name character by character, every space turned
    into a hyphen: it has the length of the name and holds no space. *)
Theorem tagname_spec item :
  String.length (tagname item) = String.length (name item)
  /\ (forall i, String.get i (tagname item)
                = (fun c => if Ascii.eqb c " " then "-"%char else c)
                    <$> String.get i (name item))
  /\ (forall i, String.get i (tagname item) <> Some " "%char).
Proof.
  unfold tagname, name. split; [apply replace_length|].
  split; [apply replace_get|].
  intros i. rewrite replace_get.
  destruct (String.get i (name_ item)) as [c|]; cbn; [|discriminate].
  destruct (Ascii.eqb_spec c " "); congruence.
Qed.

(** X2. A textual [set] keeps the name and the active kind, whatever the
    text: the checked accessor of a kind throws after it exactly when it
    threw before. *)
Theorem set_text_keeps_kind text item (k : kind) :
  name (set_text text item) = name item
  /\ index (value_ (set_text text item)) = index (value_ item)
  /\ (to k (set_text text item) = throws bad_variant_access
      <-> to k item = throws bad_variant_access).
Proof.
  split; [reflexivity|]. split; [apply set_text_index|].
  destruct item as [nm [b|n|n|d]], k; cbn; split; congruence.
Qed.

(** X3. A textual [set] keeps an integer item inside the range of its type:
    what [from_chars] cannot represent is not stored. *)
Theorem set_text_in_range text item :
  in_range (value_ item) -> in_range (value_ (set_text text item)).
Proof.
  destruct item as [nm [b|n|n|d]]; cbn [value_ set_text in_range];
    intros Hr; [exact I| | |exact I].
  - unfold charconv.from_chars_uint8, type.is_uint8 in *.
    destruct (from_chars_range false 0 type.uint8_max text n) as [->|?];
      assumption.
  - unfold charconv.from_chars_int, type.is_int in *.
    destruct (from_chars_range true type.int_min type.int_max text n) as [->|?];
      assumption.
Qed.

(** X4. On an item of an integer kind, a text that opens with the decimal
    literal of a number the kind can hold stores that number under the same
    kind; what follows the literal, as long as it does not go on with a
    digit, is ignored. *)
Theorem set_text_reads_literal text item z rest (target : variant double) :
  target = of_uint8 z \/ target = of_int z ->
  index target = index (value_ item) ->
  in_range target ->
  charconv.starts_integer false rest = false ->
  text = (fmt.format_integer z ++ rest)%string ->
  value_ (set_text text item) = target
  /\ set_text_ec text item = Some charconv.errc_none.
Proof.
  intros Ht Hk Hz Hrest ->.
  destruct item as [nm [b|n|n|d]]; cbn [value_ index] in *;
    destruct Ht as [-> | ->]; try discriminate;
    unfold set_text, set_text_ec; cbn [value_ name_ in_range] in *.
  - unfold charconv.from_chars_uint8, type.is_uint8 in *.
    destruct (from_chars_literal false 0 type.uint8_max z rest n) as [p ->];
      [right; lia|exact Hrest|].
    assert (Hin : (0 <=? z) && (z <=? type.uint8_max) = true)
      by (apply andb_true_iff; split; apply Z.leb_le; lia).
    rewrite Hin. split; reflexivity.
  - unfold charconv.from_chars_int, type.is_int in *.
    destruct (from_chars_literal true type.int_min type.int_max z rest n)
      as [p ->]; [left; reflexivity|exact Hrest|].
    assert (Hin : (type.int_min <=? z) && (z <=? type.int_max) = true)
      by (apply andb_true_iff; split; apply Z.leb_le; lia).
    rewrite Hin. split; reflexivity.
Qed.

(** X5. On an item of an integer kind, a text that opens with the decimal
    literal of a number above the range of the kind (below it too for
    [int]) leaves the item as it was; [from_chars] answers
    [result_out_of_range] and the answer is dropped. *)
Theorem set_text_out_of_range text item z rest :
  (index (value_ item) = Uint8 /\ type.uint8_max < z)
  \/ (index (value_ item) = Int /\ ~ type.is_int z) ->
  charconv.starts_integer false rest = false ->
  text = (fmt.format_integer z ++ rest)%string ->
  set_text text item = item
  /\ set_text_ec text item = Some charconv.result_out_of_range.
Proof.
  intros Hk Hrest ->.
  destruct item as [nm [b|n|n|d]]; cbn [value_ index] in *;
    destruct Hk as [[Hk Hz]|[Hk Hz]]; try discriminate;
    unfold set_text, set_text_ec; cbn [value_ name_].
  - unfold charconv.from_chars_uint8, type.uint8_max in *.
    destruct (from_chars_literal false 0 255 z rest n) as [p ->];
      [right; lia|exact Hrest|].
    assert (Hin : (0 <=? z) && (z <=? 255) = false)
      by (apply andb_false_iff; right; apply Z.leb_gt; lia).
    rewrite Hin. split; reflexivity.
  - unfold charconv.from_chars_int, type.is_int in *.
    destruct (from_chars_literal true type.int_min type.int_max z rest n)
      as [p ->]; [left; reflexivity|exact Hrest|].
    assert (Hin : (type.int_min <=? z) && (z <=? type.int_max) = false).
    { apply andb_false_iff.
      destruct (Z.leb_spec type.int_min z); [right|left; reflexivity].
      apply Z.leb_gt. lia. }
    rewrite Hin. split; reflexivity.
Qed.

(** X6. [set(value)] makes the kind of the value the active one: the checked
    accessor of that kind then returns the value, and the accessor of every
    other kind throws, whatever the item held before. The name stays. *)
Theorem set_then_to item (k : kind) (v : kind_type double k) :
  name (set (make k v) item) = name item
  /\ to k (set (make k v) item) = returns v
  /\ forall k', k' <> k -> to k' (set (make k v) item) = throws bad_variant_access.
Proof.
  split; [reflexivity|]. split; [destruct k; reflexivity|].
  intros k' Hne. destruct k, k'; try contradiction; reflexivity.
Qed.

(** X7. [framecfg::size] with an [int] depth calls [std::terminate]
    exactly when the width or the height does not hold an [int]; textual
    sets of the width and the height never change whether it does. When both
    hold an [int] and the products fit, it is the product of depth, width
    and height. *)
Theorem size_terminates (depth : Z) (frame : framecfg (double := double)) :
  (size depth frame = terminates
   <-> ~ (index (value_ (width frame)) = Int
          /\ index (value_ (height frame)) = Int))
  /\ (forall t1 t2,
        size depth {| width := set_text t1 (width frame);
                      height := set_text t2 (height frame);
                      rate := rate frame |} = terminates
        <-> size depth frame = terminates)
  /\ (forall w h,
        value_ (width frame) = of_int w -> value_ (height frame) = of_int h ->
        type.is_int (depth * w) -> type.is_int (depth * w * h) ->
        size depth frame = int_value (depth * w * h)).
Proof.
  assert (Hiff : forall f : framecfg (double := double),
             size depth f = terminates
             <-> ~ (index (value_ (width f)) = Int
                    /\ index (value_ (height f)) = Int)).
  { intros [[nw [b|n|n|d]] [nh [b'|n'|n'|d']] r]; unfold size; cbn;
      try (split; [intros _ [? ?]; discriminate|reflexivity]).
    split; [|intros Hn; contradiction Hn; split; reflexivity].
    destruct (_ && _); discriminate. }
  split; [apply Hiff|]. split.
  - intros t1 t2. rewrite !Hiff. cbn [width height].
    rewrite !set_text_index. reflexivity.
  - intros w h Hw Hh H1 H2. unfold size, to. rewrite Hw, Hh. cbn.
    unfold type.fits_int, type.is_int in *.
    assert (Hin : forall n, type.int_min <= n <= type.int_max ->
                            (type.int_min <=? n) && (n <=? type.int_max) = true)
      by (intros n0 Hn0; apply andb_true_iff; split; apply Z.leb_le; lia).
    rewrite !Hin by assumption. reflexivity.
Qed.

End config_item_more_facts.

Lemma set_text_in_range_witness :
  cfg.in_range (cfg.value_ (cfg.set_text "300" sample.red)).
Proof.
  apply (set_text_in_range "300" sample.red). vm_compute. split; discriminate.
Defined.

Lemma set_text_reads_literal_witness :
  cfg.value_ (cfg.set_text "1024 px" sample.width) = cfg.of_int 1024
  /\ cfg.set_text_ec "1024 px" sample.width = Some charconv.errc_none.
Proof.
  apply (set_text_reads_literal "1024 px" sample.width 1024 " px").
  - right. reflexivity.
  - reflexivity.
  - vm_compute. split; discriminate.
  - reflexivity.
  - reflexivity.
Defined.

Lemma set_text_out_of_range_witness :
  cfg.set_text "256" sample.red = sample.red
  /\ cfg.set_text_ec "256" sample.red = Some charconv.result_out_of_range.
Proof.
  apply (set_text_out_of_range "256" sample.red 256 "").
  - left. split; [reflexivity|]. vm_compute. reflexivity.
  - reflexivity.
  - reflexivity.
Defined.

(** ** More on menus *)

Section find_if_more_facts.
Context {T : Type}.
Import vec.
Local Open Scope nat_scope.

Lemma find_if_from_app_found (pred : T -> bool) (l l' : list T) : forall pos,
  find_if_from pred l pos < pos + length l ->
  find_if_from pred (l ++ l') pos = find_if_from pred l pos.
Proof.
  induction l as [|x l IH]; intros pos; cbn [find_if_from length app].
  - lia.
  - destruct (pred x); [reflexivity|]. intros Hlt. apply IH. lia.
Qed.

Lemma find_if_from_app_missing (pred : T -> bool) (l l' : list T) : forall pos,
  (forall x, x ∈ l -> pred x = false) ->
  find_if_from pred (l ++ l') pos = find_if_from pred l' (pos + length l).
Proof.
  induction l as [|x l IH]; intros pos Hnone; cbn [find_if_from length app].
  - f_equal. lia.
  - rewrite (Hnone x) by left. rewrite IH.
    + f_equal. lia.
    + intros y Hy. apply Hnone. now right.
Qed.

End find_if_more_facts.

Section menu_more_facts.
Context {double : Type} `{!charconv.floating_point double}.
Context {Action : Type} `{!ui.invocable (double := double) Action}.
Context `{!vec.growth_policy} `{!fmt.char_range}.
Import vec ui.
Local Open Scope nat_scope.

Implicit Types (m : menu Action) (o : menu_option Action) (k : ascii).
Implicit Types (s : gmap nat (cfg.config_item double)).

Lemma add_data k c (a : Action) m :
  data (options_ (add k c a m))
  = data (options_ m) ++ [{| action_ := a; cfgitem_ := c; key_ := k |}].
Proof.
  unfold add, emplace_back. cbn [options_]. destruct (_ <? _); reflexivity.
Qed.

Lemma key_elem_of k m :
  k ∈ keys m <-> exists o, o ∈ data (options_ m) /\ key o = k.
Proof.
  unfold keys. rewrite list_elem_of_fmap. split; intros (o & Ha & Hb); eauto.
Qed.

(** X8. [add] checks nothing: with a key the menu already has, the option
    is appended all the same, and [select] of that key still stops at the
    earlier option, so the cursor never reaches the new one. *)
Theorem add_duplicate_key_shadowed k c (a : Action) m :
  k ∈ keys m ->
  count (add k c a m) = S (count m)
  /\ (select k (add k c a m)).2 = true
  /\ it_pos (selection_ (select k (add k c a m)).1)
     = it_pos (selection_ (select k m).1)
  /\ it_pos (selection_ (select k (add k c a m)).1) < count m
  /\ selection (select k (add k c a m)).1 = selection (select k m).1.
Proof.
  intros Hk. apply key_elem_of in Hk as (o & Ho & Hko).
  assert (Hlt : find_if_from (fun o => Ascii.eqb (key o) k) (data (options_ m)) 0
                < 0 + length (data (options_ m))).
  { apply (find_if_from_found _ _ 0 o Ho). rewrite Hko. apply Ascii.eqb_refl. }
  assert (Hpos : it_pos (selection_ (select k (add k c a m)).1)
                 = it_pos (selection_ (select k m).1)).
  { unfold select, find_if. cbn [fst selection_ it_pos].
    rewrite add_data. now apply find_if_from_app_found. }
  split; [apply add_count|]. split; [apply select_added|].
  split; [exact Hpos|]. split.
  - rewrite Hpos. unfold select, find_if, count, size.
    cbn [fst selection_ it_pos]. lia.
  - unfold selection, deref.
    change (options_ (select k (add k c a m)).1) with (options_ (add k c a m)).
    change (options_ (select k m).1) with (options_ m).
    change (it_buf (selection_ (select k (add k c a m)).1))
      with (buffer (options_ (add k c a m))).
    change (it_buf (selection_ (select k m).1)) with (buffer (options_ m)).
    rewrite !Nat.eqb_refl, Hpos, add_data.
    apply lookup_app_l.
    unfold select, find_if. cbn [fst selection_ it_pos]. lia.
Qed.

(** X9. After [add] with a key the menu does not have yet, [select] of that
    key answers [true] with the cursor on the last position, and
    [selection()] is the option just added, with its item and action. *)
Theorem add_fresh_key_selected k c (a : Action) m :
  k ∉ keys m ->
  (select k (add k c a m)).2 = true
  /\ it_pos (selection_ (select k (add k c a m)).1) = count m
  /\ selection (select k (add k c a m)).1
     = Some {| action_ := a; cfgitem_ := c; key_ := k |}.
Proof.
  intros Hk.
  assert (Hpos : it_pos (selection_ (select k (add k c a m)).1) = count m).
  { unfold select, find_if, count, size. cbn [fst selection_ it_pos].
    rewrite add_data, find_if_from_app_missing.
    - cbn. rewrite Ascii.eqb_refl. reflexivity.
    - intros o Ho. apply Ascii.eqb_neq. intros Hko. apply Hk.
      apply key_elem_of. eauto. }
  split; [apply select_added|]. split; [exact Hpos|].
  unfold selection, deref.
  change (options_ (select k (add k c a m)).1) with (options_ (add k c a m)).
  change (it_buf (selection_ (select k (add k c a m)).1))
    with (buffer (options_ (add k c a m))).
  rewrite Nat.eqb_refl, Hpos, add_data. unfold count, size.
  rewrite lookup_app_r by lia. rewrite Nat.sub_diag. reflexivity.
Qed.

Lemma spaces_length n : String.length (fmt.spaces n) = n.
Proof. induction n as [|n IH]; cbn; [reflexivity|]. now rewrite IH. Qed.

Lemma spaces_plus a b :
  (fmt.spaces a ++ fmt.spaces b)%string = fmt.spaces (a + b).
Proof.
  induction a as [|a IH]; [reflexivity|].
  cbn [fmt.spaces Nat.add]. rewrite append_cons, IH. reflexivity.
Qed.

Lemma length_append (a b : string) :
  String.length (a ++ b) = String.length a + String.length b.
Proof.
  induction a as [|x a IH]; [reflexivity|].
  rewrite append_cons. cbn [String.length]. now rewrite IH.
Qed.

Lemma option_to_string_line_shape o s item :
  s !! cfgitem_ o = Some item ->
  exists gap,
    option_to_string o s
    = Some (cfg.name item
            ++ fmt.spaces gap
            ++ cfg.to_string item ++ String "010" EmptyString)%string
    /\ gap = (20 - String.length (cfg.name item))
             + 1 + (16 - String.length (cfg.to_string item)).
Proof.
  intros Hitem. unfold option_to_string. rewrite Hitem.
  eexists. split; [|reflexivity]. f_equal.
  unfold fmt.align_left, fmt.align_right.
  rewrite <- !spaces_plus. cbn [fmt.spaces].
  rewrite !append_assoc, ?append_cons, ?append_nil, ?append_assoc.
  reflexivity.
Qed.

(** X11. The line of an option that points at an item is the name, a gap
    of spaces, the value and a line feed. Nothing is cut: the gap fills the
    name up to 20 columns and the value up to 16, with one space between,
    and is that one space when both are longer. The line is 38 columns
    long when the name has at most 20 and the value at most 16. *)
Theorem option_to_string_line o s item :
  s !! cfgitem_ o = Some item ->
  exists gap line,
    option_to_string o s = Some line
    /\ line = (cfg.name item
               ++ fmt.spaces gap
               ++ cfg.to_string item ++ String "010" EmptyString)%string
    /\ gap = (20 - String.length (cfg.name item))
             + 1 + (16 - String.length (cfg.to_string item))
    /\ String.length line
       = Nat.max 20 (String.length (cfg.name item))
         + Nat.max 16 (String.length (cfg.to_string item)) + 2.
Proof.
  intros Hitem.
  destruct (option_to_string_line_shape o s item Hitem) as (gap & Hline & Hgap).
  exists gap. eexists. split; [exact Hline|]. split; [reflexivity|].
  split; [exact Hgap|].
  rewrite !length_append, spaces_length. cbn [String.length]. lia.
Qed.

Lemma to_string_loop_app (os os' : list (menu_option Action)) s : forall result,
  to_string_loop (os ++ os') s result
  = match to_string_loop os s result with
    | rendered r => to_string_loop os' s r
    | format_error => format_error
    | undefined => undefined
    end.
Proof.
  induction os as [|o os IH]; intros result; cbn [to_string_loop app];
    [reflexivity|].
  destruct (option_to_string o s); [|reflexivity].
  destruct (fmt.format_char _); [|reflexivity].
  apply IH.
Qed.

(** X12. Rendering follows the order of insertion: when a menu renders and
    the new option points at an item and has a key [{:c}] can print, the menu
    after [add] renders as the old text followed by the upper-case key,
    [" | "] and the line of the new option. *)
Theorem menu_to_string_add k c (a : Action) m s result item ch :
  menu_to_string m s = rendered result ->
  s !! c = Some item ->
  fmt.format_char (cctype.toupper (nat_of_ascii k)) = Some ch ->
  exists line,
    option_to_string {| action_ := a; cfgitem_ := c; key_ := k |} s = Some line
    /\ menu_to_string (add k c a m) s
       = rendered (result ++ String ch (String " " (String "|" (String " " line)))).
Proof.
  intros Hm Hitem Hch. unfold menu_to_string in *.
  rewrite add_data, to_string_loop_app, Hm.
  unfold to_string_loop, option_to_string, key. cbn [cfgitem_ key_].
  rewrite Hitem, Hch. eexists. split; reflexivity.
Qed.

Lemma to_string_loop_outcome (os : list (menu_option Action)) s : forall result,
  (forall o, o ∈ os -> is_Some (s !! cfgitem_ o)) ->
  (Forall (fun o => cctype.toupper (nat_of_ascii (key o)) <= fmt.char_max) os
   /\ exists text,
        to_string_loop os s result = rendered text
        /\ String.length result + 42 * length os <= String.length text)
  \/ (Exists (fun o => fmt.char_max < cctype.toupper (nat_of_ascii (key o))) os
      /\ to_string_loop os s result = format_error).
Proof.
  induction os as [|o os IH]; intros result Hitems; cbn [to_string_loop].
  - left. split; [constructor|]. exists result. split; [reflexivity|]. cbn. lia.
  - destruct (Hitems o) as [item Hitem]; [left|].
    destruct (option_to_string_line_shape o s item Hitem) as (gap & Hline & Hgap).
    rewrite Hline. unfold fmt.format_char.
    destruct (Nat.leb_spec (cctype.toupper (nat_of_ascii (key o))) fmt.char_max)
      as [Hle|Hgt].
    + match goal with
      | |- context [to_string_loop os s ?r] =>
          destruct (IH r) as [(Hall & text & Ht & Hlen)|(Hex & Ht)]
      end.
      * intros o' Ho'. apply Hitems. now right.
      * left. split; [constructor; assumption|].
        exists text. split; [exact Ht|].
        rewrite length_append in Hlen. cbn [String.length] in Hlen.
        rewrite !length_append, spaces_length in Hlen.
        cbn [String.length length] in *. lia.
      * right. split; [now apply Exists_cons_tl|exact Ht].
    + right. split; [now apply Exists_cons_hd|reflexivity].
Qed.

(** X13. When every option points at an item, rendering never runs into
    undefined behaviour: it throws [format_error] exactly when some key, in
    upper case, is a code [char] cannot hold, and otherwise yields a text of
    at least 42 columns for each option. *)
Theorem menu_to_string_outcome m s :
  (forall o, o ∈ data (options_ m) -> is_Some (s !! cfgitem_ o)) ->
  (menu_to_string m s = format_error
   <-> Exists (fun o => fmt.char_max < cctype.toupper (nat_of_ascii (key o)))
         (data (options_ m)))
  /\ (menu_to_string m s <> format_error ->
      exists text,
        menu_to_string m s = rendered text
        /\ 42 * count m <= String.length text).
Proof.
  intros Hitems. unfold menu_to_string, count, size.
  destruct (to_string_loop_outcome (data (options_ m)) s EmptyString Hitems)
    as [(Hall & text & Ht & Hlen)|(Hex & Ht)]; rewrite Ht.
  - split.
    + split; [discriminate|]. intros Hex. exfalso.
      apply Exists_exists in Hex as (o & Ho & Hgt).
      rewrite Forall_forall in Hall. specialize (Hall o Ho). lia.
    + intros _. exists text. split; [reflexivity|]. cbn in Hlen. lia.
  - split; [tauto|]. intros Hne. contradiction Hne. reflexivity.
Qed.

End menu_more_facts.

(** ** The further properties on concrete items and menus *)

Example is_distinct_cfgitem :
  tt.is_distinct cfg.Bool [cfg.Uint8; cfg.Int; cfg.Double] = Some true.
Proof. reflexivity. Qed.

Example is_distinct_repeated :
  tt.is_distinct cfg.Bool [cfg.Int; cfg.Bool] = Some false.
Proof. reflexivity. Qed.

Example size_frame : cfg.size 3 sample.frame = cfg.int_value 921600.
Proof. reflexivity. Qed.

Example render_two_keys :
  ui.menu_to_string sample.two_keys sample.items
  = ui.rendered
      (sample.one_key_text
       ++ "H | screen height" ++ fmt.spaces 21 ++ "600" ++ String "010" EmptyString).
Proof. reflexivity. Qed.

Example render_high_key :
  ui.menu_to_string (ui.add (ascii_of_nat 200) 1 None sample.two_keys) sample.items
  = ui.format_error.
Proof. reflexivity. Qed.

Lemma is_distinct_NoDup_witness :
  tt.is_distinct cfg.Bool [cfg.Uint8; cfg.Int; cfg.Double]
  = Some (bool_decide (NoDup [cfg.Bool; cfg.Uint8; cfg.Int; cfg.Double])).
Proof.
  apply (is_distinct_NoDup cfg.Bool [cfg.Uint8; cfg.Int; cfg.Double]).
  discriminate.
Defined.

Lemma add_duplicate_key_shadowed_witness :
  ui.count (ui.add "w" 2 None sample.two_keys) = S (ui.count sample.two_keys)
  /\ (ui.select "w" (ui.add "w" 2 None sample.two_keys)).2 = true
  /\ vec.it_pos (ui.selection_ (ui.select "w" (ui.add "w" 2 None sample.two_keys)).1)
     = vec.it_pos (ui.selection_ (ui.select "w" sample.two_keys).1)
  /\ (vec.it_pos (ui.selection_ (ui.select "w" (ui.add "w" 2 None sample.two_keys)).1)
      < ui.count sample.two_keys)%nat
  /\ ui.selection (ui.select "w" (ui.add "w" 2 None sample.two_keys)).1
     = ui.selection (ui.select "w" sample.two_keys).1.
Proof.
  apply (add_duplicate_key_shadowed "w" 2 None sample.two_keys).
  apply list_elem_of_In. vm_compute. left. reflexivity.
Defined.

Lemma add_fresh_key_selected_witness :
  (ui.select "r" (ui.add "r" 2 sample.mirror sample.two_keys)).2 = true
  /\ vec.it_pos (ui.selection_ (ui.select "r" (ui.add "r" 2 sample.mirror sample.two_keys)).1)
     = ui.count sample.two_keys
  /\ ui.selection (ui.select "r" (ui.add "r" 2 sample.mirror sample.two_keys)).1
     = Some {| ui.action_ := sample.mirror; ui.cfgitem_ := 2; ui.key_ := "r" |}.
Proof.
  apply (add_fresh_key_selected "r" 2 sample.mirror sample.two_keys).
  intros Hin. apply list_elem_of_In in Hin. vm_compute in Hin.
  destruct Hin as [Hin|[Hin|[]]]; discriminate Hin.
Defined.

Lemma add_in_place_keeps_cursor_witness :
  ui.valid_for_reads (ui.add "x" 1 None (ui.select "w" sample.three_keys).1) = true
  /\ ui.selection (ui.add "x" 1 None (ui.select "w" sample.three_keys).1)
     = ui.selection (ui.select "w" sample.three_keys).1.
Proof.
  apply (add_in_place_keeps_cursor "x" 1 None (ui.select "w" sample.three_keys).1).
  - vm_compute. lia.
  - reflexivity.
Defined.

Lemma option_to_string_line_witness :
  exists gap line,
    ui.option_to_string sample.width_option sample.items = Some line
    /\ line = (cfg.name sample.width
               ++ fmt.spaces gap
               ++ cfg.to_string sample.width ++ String "010" EmptyString)%string
    /\ gap = ((20 - String.length (cfg.name sample.width))
              + 1 + (16 - String.length (cfg.to_string sample.width)))%nat
    /\ String.length line
       = (Nat.max 20 (String.length (cfg.name sample.width))
          + Nat.max 16 (String.length (cfg.to_string sample.width)) + 2)%nat.
Proof.
  exact (option_to_string_line sample.width_option sample.items sample.width
           eq_refl).
Defined.

Lemma menu_to_string_add_witness :
  exists line,
    ui.option_to_string
      {| ui.action_ := (None : sample.action); ui.cfgitem_ := 2; ui.key_ := "h" |}
      sample.items
    = Some line
    /\ ui.menu_to_string (ui.add "h" 2 None sample.one_key) sample.items
       = ui.rendered
           (sample.one_key_text
            ++ String "H" (String " " (String "|" (String " " line)))).
Proof.
  apply (menu_to_string_add "h" 2 None sample.one_key sample.items
           sample.one_key_text sample.height "H").
  - reflexivity.
  - reflexivity.
  - reflexivity.
Defined.

Lemma menu_to_string_outcome_witness :
  (ui.menu_to_string sample.two_keys sample.items = ui.format_error
   <-> Exists (fun o => (fmt.char_max < cctype.toupper (nat_of_ascii (ui.key o)))%nat)
         (vec.data (ui.options_ sample.two_keys)))
  /\ (ui.menu_to_string sample.two_keys sample.items <> ui.format_error ->
      exists text,
        ui.menu_to_string sample.two_keys sample.items = ui.rendered text
        /\ (42 * ui.count sample.two_keys <= String.length text)%nat).
Proof.
  apply (menu_to_string_outcome sample.two_keys sample.items).
  intros o Ho. apply list_elem_of_In in Ho. vm_compute in Ho.
  destruct Ho as [<-|[<-|[]]]; eexists; reflexivity.
Defined.

(** ** Applying values through options *)

Section apply_facts.
Context {double : Type} `{!charconv.floating_point double}.
Context {Action : Type} `{!ui.invocable (double := double) Action}.
Context `{!fmt.char_range}.
Import ui.

Implicit Types (o : menu_option Action) (item : cfg.config_item double).
Implicit Types (s : gmap nat (cfg.config_item double)).

(** A text in which no number starts leaves a numeric item as it was. *)
Lemma set_text_rejected t item :
  cfg.index (cfg.value_ item) <> cfg.Bool ->
  ~ cfg.has_numeric_prefix (cfg.index (cfg.value_ item)) t ->
  cfg.set_text t item = item.
Proof.
  destruct item as [nm [b|n|n|d]];
    cbn [cfg.value_ cfg.index cfg.has_numeric_prefix];
    intros Hk Hp; [contradiction| | |].
  - assert (Hs : charconv.starts_integer false t = false).
    { destruct (charconv.starts_integer false t) eqn:E; [|reflexivity].
      contradiction Hp. now apply starts_integer_prefix. }
    unfold cfg.set_text, charconv.from_chars_uint8. cbn [cfg.value_ cfg.name_].
    rewrite (from_chars_no_match _ _ _ _ _ Hs). reflexivity.
  - assert (Hs : charconv.starts_integer true t = false).
    { destruct (charconv.starts_integer true t) eqn:E; [|reflexivity].
      contradiction Hp. now apply starts_integer_prefix. }
    unfold cfg.set_text, charconv.from_chars_int. cbn [cfg.value_ cfg.name_].
    rewrite (from_chars_no_match _ _ _ _ _ Hs). reflexivity.
  - assert (Hs : charconv.starts_floating t = false).
    { destruct (charconv.starts_floating t) eqn:E; [|reflexivity].
      contradiction Hp. now apply starts_floating_prefix. }
    unfold cfg.set_text, charconv.from_chars_double. cbn [cfg.value_ cfg.name_].
    rewrite Hs. reflexivity.
Qed.

Lemma cfgitem_set_name (value : argument (double := double)) item :
  cfg.name (cfgitem_set value item) = cfg.name item.
Proof. destruct value; reflexivity. Qed.

(** X16. [apply] does not look at what the set did: with a text in which no
    number starts, on an option whose item is numeric, the store stays as it
    was and the action, when it has a target, is invoked all the same. *)
Theorem apply_rejected_text_invokes t o s item :
  s !! cfgitem_ o = Some item ->
  cfg.index (cfg.value_ item) <> cfg.Bool ->
  ~ cfg.has_numeric_prefix (cfg.index (cfg.value_ item)) t ->
  commit (text t) o s = Some s
  /\ apply (text t) o s
     = Some (if has_target (action_ o) then invoke (action_ o) s else s).
Proof.
  intros Hitem Hk Hp.
  assert (Hc : commit (text t) o s = Some s).
  { unfold commit. rewrite Hitem. cbn [cfgitem_set].
    rewrite set_text_rejected by assumption.
    f_equal. apply insert_id. exact Hitem. }
  split; [exact Hc|]. unfold apply. rewrite Hc.
  destruct (has_target (action_ o)); reflexivity.
Qed.

(** X17. Options share the item they point at: after [apply] through an
    option whose action is empty, the line of every option that points at
    the same item shows the item's name and the value just set. *)
Theorem apply_then_line (value : argument (double := double)) o o' s item :
  s !! cfgitem_ o = Some item ->
  has_target (action_ o) = false ->
  cfgitem_ o' = cfgitem_ o ->
  exists s',
    apply value o s = Some s'
    /\ option_to_string o' s'
       = Some (fmt.align_left 20 (cfg.name item)
               ++ String " "
                    (fmt.align_right 16 (cfg.to_string (cfgitem_set value item))
                     ++ String "010" EmptyString))%string.
Proof.
  intros Hitem Hempty Hsame. unfold apply, commit. rewrite Hitem, Hempty.
  eexists. split; [reflexivity|].
  unfold option_to_string. rewrite Hsame, lookup_insert_eq.
  rewrite cfgitem_set_name. reflexivity.
Qed.

End apply_facts.

Lemma apply_rejected_text_invokes_witness :
  ui.commit (ui.text "abc") sample.width_option sample.items = Some sample.items
  /\ ui.apply (ui.text "abc") sample.width_option sample.items
     = Some (ui.invoke sample.mirror sample.items).
Proof.
  refine (apply_rejected_text_invokes "abc" sample.width_option sample.items
            sample.width _ _ _).
  - reflexivity.
  - discriminate.
  - intros Hp. apply starts_integer_prefix in Hp. discriminate Hp.
Defined.

Lemma apply_then_line_witness :
  exists s',
    ui.apply (ui.arithmetic (cfg.of_int 1024))
      {| ui.action_ := (None : sample.action); ui.cfgitem_ := 1; ui.key_ := "w" |}
      sample.items = Some s'
    /\ ui.option_to_string
         {| ui.action_ := (None : sample.action); ui.cfgitem_ := 1; ui.key_ := "x" |}
         s'
       = Some (fmt.align_left 20 (cfg.name sample.width)
               ++ String " "
                    (fmt.align_right 16
                       (cfg.to_string
                          (ui.cfgitem_set (ui.arithmetic (cfg.of_int 1024))
                             sample.width))
                     ++ String "010" EmptyString))%string.
Proof.
  apply (apply_then_line (ui.arithmetic (cfg.of_int 1024))
           {| ui.action_ := (None : sample.action); ui.cfgitem_ := 1; ui.key_ := "w" |}
           {| ui.action_ := (None : sample.action); ui.cfgitem_ := 1; ui.key_ := "x" |}
           sample.items sample.width).
  - reflexivity.
  - reflexivity.
  - reflexivity.
Defined.

Example apply_then_line_1024 :
  (ui.apply (ui.arithmetic (cfg.of_int 1024))
     {| ui.action_ := (None : sample.action); ui.cfgitem_ := 1; ui.key_ := "w" |}
     sample.items
   ≫= ui.option_to_string sample.width_option)
  = Some ("screen width" ++ fmt.spaces 21 ++ "1024" ++ String "010" EmptyString)%string.
Proof. reflexivity. Qed.
